(** * Scene composer and reel merger ([scripts/compose_scenes.py])

    A shallow embedding of the compositor script and proofs about its
    scheduling, command construction and failure handling.

    Modelling conventions.
    - The scheduling loop is embedded twice.  For control flow, commands
      and files, Python [float] seconds are exact rationals ([Q]) and
      [int(x)] is truncation toward zero ([compose_loop], [compose_scene]):
      rounding error, infinities and NaN are outside that model, and no
      statement about the numbers in a delay is made in it.  For the
      numbers, seconds are IEEE binary64 values ([spec_float]) and [int()]
      raises on infinities and NaN ([compose_loop64], [compose_scene64]).
    - The interpreter state is a [World]: the file system (path to content)
      and the log of encoder invocations.  Python code is written in a small
      state-and-exception monad [M].
    - [ffmpeg], [ffprobe], [float()], [str.strip()] and [Path.absolute()] are
      not code of this repository; they are the fields of an [Env] that every
      definition takes as a parameter.  An [ffmpeg] run always completes with
      an exit status and may change only the file named by its last
      argument; an [ffprobe] run may raise instead of completing.
    - The two producer scripts, [scripts/generate_tts.py] and
      [scripts/generate_videos.py], are embedded in the same monad, with the
      speech service and the video back ends as parameters ([TtsEnv],
      [VideoEnv]), so that what they hand to the composer can be stated. *)

From Stdlib Require Import Ascii QArith Qround Qpower Lqa SpecFloat.
From stdpp Require Import gmap strings list pretty sorting.

Local Open Scope string_scope.
Local Open Scope list_scope.

(** ** Python values and exceptions *)

Inductive exn : Type :=
  | FileNotFoundError
  | ValueError
  | KeyboardInterrupt
  | SystemExit (code : Z)
  | OtherError (name : string).

Inductive result (A : Type) : Type :=
  | Ok (a : A)
  | Raise (e : exn).
Arguments Ok {A} a.
Arguments Raise {A} e.

(** [subprocess.CompletedProcess] as far as the script reads it. *)
Record CompletedProcess : Type := {
  returncode : Z;
  stdout : string;
  stderr : string
}.

(** One element of a scene's [audio_files] list, as written by
    [generate_tts.process_script].  [path] is optional because the composer
    reads it with [audio_info.get("path", "")]. *)
Record audio_info : Type := {
  path : option string;
  character : string;
  text : string;
  scene_id : Z;
  order : Z
}.

(** ** The world *)

Record World : Type := {
  files : gmap string string;
  encodes : list (list string)
}.

Record Env : Type := {
  (** exit status and messages of an encoder run, and what its output path
      holds afterwards ([None]: no file there) *)
  ffmpeg : list string → gmap string string → CompletedProcess * option string;
  (** a probe run: completes, or [subprocess.run] raises *)
  ffprobe : list string → gmap string string → result CompletedProcess;
  py_strip : string → string;
  (** [float(s)]; [None] stands for [ValueError] *)
  py_float : string → option Q;
  (** [str(Path(p).absolute())] *)
  absolute : string → string
}.

(** ** State and exception monad *)

Definition M (A : Type) : Type := World → result A * World.

Definition ret {A} (a : A) : M A := λ w, (Ok a, w).

Definition bind {A B} (m : M A) (k : A → M B) : M B :=
  λ w, match m w with
       | (Ok a, w') => k a w'
       | (Raise e, w') => (Raise e, w')
       end.

Definition raise {A} (e : exn) : M A := λ w, (Raise e, w).

(** [try: body / except: handler] with a bare [except], which catches every
    exception. *)
Definition try_except {A} (body handler : M A) : M A :=
  λ w, match body w with
       | (Ok a, w') => (Ok a, w')
       | (Raise _, w') => handler w'
       end.

Notation "x <- c1 ;; c2" := (bind c1 (λ x, c2))
  (at level 100, c1 at next level, right associativity).
Notation "c1 ;;; c2" := (bind c1 (λ _, c2))
  (at level 100, right associativity).

(** [Path(p).exists()] *)
Definition file_exists (fs : gmap string string) (p : string) : bool :=
  bool_decide (is_Some (fs !! p)).

Definition path_exists (p : string) : M bool :=
  λ w, (Ok (file_exists (files w) p), w).

(** [Path(p).write_text(s)], and [open(p, 'w')] followed by writes *)
Definition write_text (p s : string) : M unit :=
  λ w, (Ok tt, {| files := <[p := s]> (files w); encodes := encodes w |}).

(** [sys.exit(code)] *)
Definition sys_exit {A} (code : Z) : M A := raise (SystemExit code).

(** Exit status of the interpreter for the outcome of [main()]. *)
Definition exit_status {A} (r : result A) : Z :=
  match r with
  | Ok _ => 0
  | Raise (SystemExit code) => code
  | Raise _ => 1
  end.

Section Composer.

Variable E : Env.

(** [subprocess.run(["ffprobe", ...], capture_output=True, text=True)] *)
Definition run_ffprobe (cmd : list string) : M CompletedProcess :=
  λ w, (ffprobe E cmd (files w), w).

(** [subprocess.run(["ffmpeg", ...], capture_output=True)]: the output path
    is the last argument of every command the script builds. *)
Definition run_ffmpeg (cmd : list string) : M CompletedProcess :=
  λ w, let '(cp, out) := ffmpeg E cmd (files w) in
       (Ok cp,
        {| files := partial_alter (λ _, out) (List.last cmd "") (files w);
           encodes := encodes w ++ [cmd] |}).

Definition float_of (s : string) : M Q :=
  match py_float E s with
  | Some q => ret q
  | None => raise ValueError
  end.

(** *** [get_media_duration] *)

Definition probe_cmd (file_path : string) : list string :=
  ["ffprobe"; "-v"; "error";
   "-show_entries"; "format=duration";
   "-of"; "default=noprint_wrappers=1:nokey=1";
   file_path].

Definition get_media_duration (file_path : string) : M Q :=
  try_except
    (result <- run_ffprobe (probe_cmd file_path) ;;
     float_of (py_strip E (stdout result)))
    (ret 5%Q).

(** *** [compose_scene] *)

Definition COMPOSED_DIR : string := "outputs/composed".
Definition FINAL_DIR : string := "outputs/final".

(** [dir / name] on [pathlib.Path], read back with [str()] *)
Definition path_join (dir name : string) : string := dir +:+ "/" +:+ name.

(** [int(x)] on a float: truncation toward zero *)
Definition py_int (x : Q) : Z := Z.quot (Qnum x) (Z.pos (Qden x)).

(** The video-only copy, which the function issues at three places. *)
Definition passthrough_cmd (video_path output_path : string) : list string :=
  ["ffmpeg"; "-y"; "-i"; video_path; "-c:v"; "copy"; "-an"; output_path].

(** [f"[{audio_idx}:a]adelay={int(current_time*1000)}|{int(current_time*1000)}[a{idx}]"] *)
Definition delay_part (audio_idx : nat) (current_time : Q) (idx : nat) : string :=
  "[" +:+ pretty audio_idx +:+ ":a]adelay="
      +:+ pretty (py_int (current_time * 1000)) +:+ "|"
      +:+ pretty (py_int (current_time * 1000))
      +:+ "[a" +:+ pretty idx +:+ "]".

(** The local variables the scheduling loop updates. *)
Record loop_state : Type := {
  audio_inputs : list string;
  filter_parts : list string;
  current_time : Q
}.

Definition audio_path_of (audio_info : audio_info) : string :=
  default "" (path audio_info).

(** [for idx, audio_info in enumerate(audio_files): ...] *)
Fixpoint compose_loop (gap : Q) (audio_files : list audio_info) (idx : nat)
    (st : loop_state) : M loop_state :=
  match audio_files with
  | [] => ret st
  | audio_info :: rest =>
      let audio_path := audio_path_of audio_info in
      found <- path_exists audio_path ;;
      if negb found then compose_loop gap rest (S idx) st
      else
        let audio_inputs' := audio_inputs st ++ ["-i"; audio_path] in
        let audio_idx := idx + 1 in
        let filter_parts' :=
          filter_parts st ++ [delay_part audio_idx (current_time st) idx] in
        audio_duration <- get_media_duration audio_path ;;
        let current_time' := (current_time st + (audio_duration + gap))%Q in
        compose_loop gap rest (S idx)
          {| audio_inputs := audio_inputs';
             filter_parts := filter_parts';
             current_time := current_time' |}
  end.

Definition init_state (video_path : string) : loop_state :=
  {| audio_inputs := ["-i"; video_path];
     filter_parts := [];
     current_time := 0.2%Q |}.

(** [audio_labels] followed by the [amix] filter *)
Definition amix_part (n : nat) : string :=
  String.concat "" (map (λ i : nat, "[a" +:+ pretty i +:+ "]") (seq 0 n))
    +:+ "amix=inputs=" +:+ pretty n +:+ ":duration=longest[aout]".

Definition filter_complex_of (parts : list string) : string :=
  String.concat ";" (parts ++ [amix_part (length parts)]).

Definition mix_cmd (inputs parts : list string) (output_path : string)
    : list string :=
  ["ffmpeg"; "-y"] ++ inputs ++
  ["-filter_complex"; filter_complex_of parts;
   "-map"; "0:v";
   "-map"; "[aout]";
   "-c:v"; "libx264"; "-preset"; "fast";
   "-c:a"; "aac"; "-b:a"; "128k";
   "-shortest";
   output_path].

Definition composed_path (scene_id : Z) : string :=
  path_join COMPOSED_DIR ("scene_" +:+ pretty scene_id +:+ "_composed.mp4").

Definition compose_scene (scene_id : Z) (video_path : string)
    (audio_files : list audio_info) : M (option string) :=
  let output_path := composed_path scene_id in
  video_found <- path_exists video_path ;;
  if negb video_found then ret None
  else
    match audio_files with
    | [] =>
        run_ffmpeg (passthrough_cmd video_path output_path) ;;;
        ret (Some output_path)
    | _ :: _ =>
        video_duration <- get_media_duration video_path ;;
        let num_dialogues := length audio_files in
        let gap := 0.3%Q in
        st <- compose_loop gap audio_files 0 (init_state video_path) ;;
        match filter_parts st with
        | [] =>
            run_ffmpeg (passthrough_cmd video_path output_path) ;;;
            ret (Some output_path)
        | _ :: _ =>
            let cmd := mix_cmd (audio_inputs st) (filter_parts st) output_path in
            result <- run_ffmpeg cmd ;;
            (if bool_decide (returncode result ≠ 0%Z)
             then run_ffmpeg (passthrough_cmd video_path output_path) ;;; ret tt
             else ret tt) ;;;
            ret (Some output_path)
        end
    end.

(** *** [merge_scenes] *)

(** Truth value of an optional string: [None] and [""] are false. *)
Definition truthy (v : option string) : bool :=
  match v with
  | Some s => bool_decide (s ≠ "")
  | None => false
  end.

(** [[v for v in composed_videos if v and Path(v).exists()]] *)
Fixpoint valid_videos (fs : gmap string string)
    (composed_videos : list (option string)) : list string :=
  match composed_videos with
  | [] => []
  | v :: rest =>
      match v with
      | Some p =>
          if truthy v && file_exists fs p
          then p :: valid_videos fs rest
          else valid_videos fs rest
      | None => valid_videos fs rest
      end
  end.

Definition newline : string := String "010"%char "".

(** What the [with open(concat_file, 'w')] block leaves in the file. *)
Definition manifest (videos : list string) : string :=
  String.concat ""
    (map (λ video, "file '" +:+ absolute E video +:+ "'" +:+ newline) videos).

Definition merge_cmd (concat_file output_path : string) : list string :=
  ["ffmpeg"; "-y";
   "-f"; "concat"; "-safe"; "0";
   "-i"; concat_file;
   "-vf"; "scale=1080:1920:force_original_aspect_ratio=decrease,pad=1080:1920:(ow-iw)/2:(oh-ih)/2,setsar=1";
   "-c:v"; "libx264"; "-preset"; "medium"; "-crf"; "23";
   "-c:a"; "aac"; "-b:a"; "128k";
   "-movflags"; "+faststart";
   output_path].

Definition final_reel_path : string := path_join FINAL_DIR "final_reel.mp4".
Definition concat_list_path : string := path_join FINAL_DIR "concat_list.txt".

Definition merge_scenes (composed_videos : list (option string))
    : M (option string) :=
  let output_path := final_reel_path in
  valid <- (λ w, (Ok (valid_videos (files w) composed_videos), w)) ;;
  match valid with
  | [] => ret None
  | _ :: _ =>
      let concat_file := concat_list_path in
      write_text concat_file (manifest valid) ;;;
      result <- run_ffmpeg (merge_cmd concat_file output_path) ;;
      if bool_decide (returncode result ≠ 0%Z) then ret None
      else
        duration <- get_media_duration output_path ;;
        ret (Some output_path)
  end.

(** *** [main], from the point where both JSON inputs have been loaded *)

Definition sidecar_path : string := "outputs/final_reel_path.txt".

(** [{s["scene_id"]: s["audio_files"] for s in audio_data}]: a later entry
    for the same scene replaces an earlier one. *)
Definition audio_lookup (audio_data : list (Z * list audio_info))
    : gmap Z (list audio_info) :=
  foldl (λ m s, <[s.1 := s.2]> m) ∅ audio_data.

(** [for idx, video_path in enumerate(video_paths): ...] *)
Fixpoint compose_all (audio_by_scene : gmap Z (list audio_info))
    (video_paths : list string) (idx : nat) : M (list (option string)) :=
  match video_paths with
  | [] => ret []
  | video_path :: rest =>
      let scene_id := (Z.of_nat idx + 1)%Z in
      let audio_files := default [] (audio_by_scene !! scene_id) in
      composed <- compose_scene scene_id video_path audio_files ;;
      others <- compose_all audio_by_scene rest (S idx) ;;
      ret (composed :: others)
  end.

Definition main (video_paths : list string)
    (audio_data : list (Z * list audio_info)) : M unit :=
  let audio_by_scene := audio_lookup audio_data in
  composed_videos <- compose_all audio_by_scene video_paths 0 ;;
  final_reel <- merge_scenes composed_videos ;;
  match final_reel with
  | Some p => if truthy final_reel then write_text sidecar_path p
              else sys_exit 1
  | None => sys_exit 1
  end.

End Composer.

(** ** The schedule the loop realises

    [start_offsets gap cursor ds] lists the values [current_time] takes at
    the successive clips when every clip exists and the probed durations are
    [ds]; [cursor_after] is the value left in [current_time] at the end. *)

Fixpoint start_offsets (gap cursor : Q) (durations : list Q) : list Q :=
  match durations with
  | [] => []
  | d :: rest => cursor :: start_offsets gap (cursor + (d + gap))%Q rest
  end.


(** Two dialogue records that agree on every field but [order]. *)
Definition differ_only_in_order (a b : audio_info) : Prop :=
  path a = path b ∧ character a = character b ∧
  text a = text b ∧ scene_id a = scene_id b.

(** Paths under the composed directory, where [compose_scene] writes. *)
Definition is_composed_output (p : string) : bool :=
  String.prefix (COMPOSED_DIR +:+ "/") p.

(** The delay parts a mix graph needs when its inputs are numbered as they
    are supplied: the k-th surviving clip is input k+1 and feeds label k.
    Written from the specification's consistency requirement, for comparison
    with what [compose_loop] produces. *)
Definition consistent_parts (offsets : list Q) : list string :=
  imap (λ k t, delay_part (k + 1) t k) offsets.

(** ** Concrete environments and worlds for the examples *)

Definition cp_ok : CompletedProcess :=
  {| returncode := 0; stdout := ""; stderr := "" |}.
Definition cp_fail : CompletedProcess :=
  {| returncode := 1; stdout := ""; stderr := "Invalid data found" |}.

(** A probe that prints the text stored in the file, and raises when the
    file is missing. *)
Definition demo_ffprobe (cmd : list string) (fs : gmap string string)
    : result CompletedProcess :=
  match fs !! List.last cmd "" with
  | Some content => Ok {| returncode := 0; stdout := content; stderr := "" |}
  | None => Raise FileNotFoundError
  end.

Definition demo_float (s : string) : option Q :=
  if String.eqb s "2.0" then Some 2%Q
  else if String.eqb s "3.0" then Some 3%Q
  else None.

Definition demo_env (enc : list string → gmap string string →
                           CompletedProcess * option string) : Env :=
  {| ffmpeg := enc;
     ffprobe := demo_ffprobe;
     py_strip := id;
     py_float := demo_float;
     absolute := λ p, "/work/" +:+ p |}.

(** every encode succeeds *)
Definition env_ok : Env := demo_env (λ _ _, (cp_ok, Some "media")).
(** every encode fails and leaves no output *)
Definition env_reject : Env := demo_env (λ _ _, (cp_fail, None)).
(** the per-scene encodes succeed, the final concatenation fails *)
Definition env_merge_fails : Env :=
  demo_env (λ cmd _, if bool_decide ("concat" ∈ cmd)
                     then (cp_fail, None) else (cp_ok, Some "media")).

Definition clip (p : string) (o : Z) : audio_info :=
  {| path := Some p; character := "narrator"; text := "line";
     scene_id := 1; order := o |}.

(** [v.mp4], [a.mp3] (2.0 s) and [b.mp3] (3.0 s) exist; nothing else does. *)
Definition demo_world : World :=
  {| files := <["v.mp4" := "5.0"]> (<["a.mp3" := "2.0"]> (<["b.mp3" := "3.0"]> ∅));
     encodes := [] |}.


(** ** IEEE binary64 arithmetic

    The interpreter computes in binary64.  [Binary64] carries the
    operations of the scheduling loop on [spec_float], rounding to nearest
    even. *)

Module Binary64.

Definition prec : Z := 53.
Definition emax : Z := 1024.

Definition of_Z (z : Z) : spec_float :=
  match z with
  | Z0 => S754_zero false
  | Zpos p => binary_normalize prec emax (Zpos p) 0 false
  | Zneg p => binary_normalize prec emax (Zpos p) 0 true
  end.

Definition add : spec_float → spec_float → spec_float := SFadd prec emax.
Definition mul : spec_float → spec_float → spec_float := SFmul prec emax.
Definition div : spec_float → spec_float → spec_float := SFdiv prec emax.

(** The literals [0.2] and [0.3]: the doubles nearest to 2/10 and 3/10. *)
Definition lead_in : spec_float := div (of_Z 2) (of_Z 10).
Definition gap : spec_float := div (of_Z 3) (of_Z 10).

(** [int(x)]; [None] where Python raises (infinities and NaN). *)
Definition to_int (x : spec_float) : option Z :=
  match x with
  | S754_zero _ => Some 0%Z
  | S754_finite s m e =>
      let a := if (0 <=? e)%Z then (Zpos m * 2 ^ e)%Z
               else (Zpos m / 2 ^ (- e))%Z in
      Some (if s then (- a)%Z else a)
  | S754_infinity _ | S754_nan => None
  end.

(** [int(current_time*1000)] *)
Definition delay_ms (current_time : spec_float) : option Z :=
  to_int (mul current_time (of_Z 1000)).

(** [current_time += audio_duration + gap] *)
Definition advance (current_time audio_duration : spec_float) : spec_float :=
  add current_time (add audio_duration gap).

End Binary64.

(** ** Helpers for statements about [compose_scenes.py] *)

(** The clips of a list whose files exist, in list order. *)
Definition existing_clips (fs : gmap string string)
    (audio_files : list audio_info) : list audio_info :=
  filter (λ a, file_exists fs (audio_path_of a) = true) audio_files.

Fixpoint sum_Q (l : list Q) : Q :=
  match l with
  | [] => 0
  | x :: rest => x + sum_Q rest
  end.

(** * [scripts/generate_tts.py]

    The script and its scenes are JSON objects read with [.get]; they are
    records whose fields are optional.  The speech service
    ([edge_tts.Communicate(...).save]) is a parameter: given text, voice,
    rate, pitch and output path it completes or raises, and says what the
    output path holds afterwards. *)

Record dialogue : Type := {
  dlg_character : option string;
  dlg_text : option string
}.

Record scene : Type := {
  scn_scene_id : option Z;
  scn_dialogues : option (list dialogue)
}.

Record TtsEnv : Type := {
  tts_save : string → string → string → string → string →
             gmap string string → result unit * option string
}.

(** Exceptions that derive from [Exception]; [KeyboardInterrupt] and
    [SystemExit] derive from [BaseException] only. *)
Definition is_Exception (e : exn) : bool :=
  match e with
  | KeyboardInterrupt | SystemExit _ => false
  | FileNotFoundError | ValueError | OtherError _ => true
  end.

(** [try: body / except Exception as e: handler] *)
Definition try_except_Exception {A} (body : M A) (handler : exn → M A) : M A :=
  λ w, match body w with
       | (Ok a, w') => (Ok a, w')
       | (Raise e, w') => if is_Exception e then handler e w' else (Raise e, w')
       end.

Definition AUDIO_OUTPUT_DIR : string := "outputs/audio".

Definition VOICE_MAP : gmap string string :=
  list_to_map
    [("maa", "hi-IN-SwaraNeural");
     ("behen", "hi-IN-SwaraNeural");
     ("baap", "hi-IN-MadhurNeural");
     ("hero", "hi-IN-MadhurNeural");
     ("dost", "hi-IN-MadhurNeural");
     ("gav_wale", "hi-IN-MadhurNeural")].

Definition voice_settings (rate pitch : string) : gmap string string :=
  list_to_map [("rate", rate); ("pitch", pitch)].

Definition VOICE_SETTINGS : gmap string (gmap string string) :=
  list_to_map
    [("maa", voice_settings "-5%" "+5Hz");
     ("behen", voice_settings "+0%" "+10Hz");
     ("baap", voice_settings "-10%" "-10Hz");
     ("hero", voice_settings "-15%" "-20Hz");
     ("dost", voice_settings "+5%" "+0Hz");
     ("gav_wale", voice_settings "+0%" "+0Hz")].

Section Tts.

Variable T : TtsEnv.

(** [await edge_tts.Communicate(text, voice, rate, pitch).save(output_path)] *)
Definition communicate_save (text voice rate pitch output_path : string)
    : M unit :=
  λ w, let '(r, out) := tts_save T text voice rate pitch output_path (files w) in
       (r, {| files := partial_alter (λ _, out) output_path (files w);
              encodes := encodes w |}).

Definition generate_audio (text character output_path : string) : M string :=
  let voice := default "hi-IN-MadhurNeural" (VOICE_MAP !! character) in
  let settings := default ∅ (VOICE_SETTINGS !! character) in
  let rate := default "+0%" (settings !! "rate") in
  let pitch := default "+0Hz" (settings !! "pitch") in
  communicate_save text voice rate pitch output_path ;;;
  ret output_path.

(** [OUTPUT_DIR / f"scene{scene_id}_{character}_{idx+1}.mp3"] *)
Definition audio_output_path (scene_id : Z) (character : string) (idx : nat)
    : string :=
  path_join AUDIO_OUTPUT_DIR
    ("scene" +:+ pretty scene_id +:+ "_" +:+ character +:+ "_"
             +:+ pretty (idx + 1) +:+ ".mp3").

(** [for idx, dialogue in enumerate(dialogues): ...] *)
Fixpoint dialogue_loop (scene_id : Z) (dialogues : list dialogue) (idx : nat)
    (scene_audio : list audio_info) : M (list audio_info) :=
  match dialogues with
  | [] => ret scene_audio
  | dialogue :: rest =>
      let character := default "narrator" (dlg_character dialogue) in
      let text := default "" (dlg_text dialogue) in
      if bool_decide (text = "") then dialogue_loop scene_id rest (S idx) scene_audio
      else
        let output_path := audio_output_path scene_id character idx in
        scene_audio' <-
          try_except_Exception
            (generate_audio text character output_path ;;;
             ret (scene_audio ++
                  [{| path := Some output_path;
                      character := character;
                      text := text;
                      scene_id := scene_id;
                      order := Z.of_nat idx + 1 |}]))
            (λ e, ret scene_audio) ;;
        dialogue_loop scene_id rest (S idx) scene_audio'
  end.

(** [for scene in scenes: ...] *)
Fixpoint scene_loop (scenes : list scene)
    (all_audio_paths : list (Z * list audio_info))
    : M (list (Z * list audio_info)) :=
  match scenes with
  | [] => ret all_audio_paths
  | scene :: rest =>
      let scene_id :=
        default (Z.of_nat (length all_audio_paths) + 1)%Z (scn_scene_id scene) in
      let dialogues := default [] (scn_dialogues scene) in
      scene_audio <- dialogue_loop scene_id dialogues 0 [] ;;
      scene_loop rest (all_audio_paths ++ [(scene_id, scene_audio)])
  end.

(** [process_script(script)], applied to [script.get("scenes")] *)
Definition process_script (scenes : option (list scene))
    : M (list (Z * list audio_info)) :=
  scene_loop (default [] scenes) [].

End Tts.

(** The dialogues of a list that have a text, each with its [enumerate]
    index counted from [idx]. *)
Definition spoken_dialogues (idx : nat) (dialogues : list dialogue)
    : list (nat * dialogue) :=
  filter (λ p, default "" (dlg_text p.2) ≠ "")
         (imap (λ i d, (idx + i, d)) dialogues).

(** The record [process_script] appends for the dialogue at index [p.1]. *)
Definition record_of (scene_id : Z) (p : nat * dialogue) : audio_info :=
  {| path := Some (audio_output_path scene_id
                     (default "narrator" (dlg_character p.2)) p.1);
     character := default "narrator" (dlg_character p.2);
     text := default "" (dlg_text p.2);
     scene_id := scene_id;
     order := Z.of_nat p.1 + 1 |}.

(** The speech service always completes and leaves a file. *)
Definition always_speaks (T : TtsEnv) : Prop :=
  ∀ text voice rate pitch output_path fs,
    (tts_save T text voice rate pitch output_path fs).1 = Ok tt ∧
    is_Some (tts_save T text voice rate pitch output_path fs).2.

(** A speech service that always succeeds. *)
Definition tts_ok : TtsEnv :=
  {| tts_save := λ _ _ _ _ _ _, (Ok tt, Some "speech") |}.

Definition line (c t : string) : dialogue :=
  {| dlg_character := Some c; dlg_text := Some t |}.

Definition empty_world : World := {| files := ∅; encodes := [] |}.

(** * [scripts/generate_videos.py]

    The generation back ends are parameters.  [gradio_predict] stands for
    importing the client, connecting to the space and calling [predict];
    [http_get] for [requests.get] and the streamed download; [http_post]
    for the inference request.  The scene is the JSON object read with
    [.get], with the three fields this script reads. *)

Record video_scene : Type := {
  vsc_scene_id : option Z;
  vsc_emotion : option string;
  vsc_location : option string
}.

(** What [client.predict] returns: a string, or some other value. *)
Inductive gradio_value : Type :=
  | GStr (s : string)
  | GOther.

(** [requests.get(...)] followed by writing the streamed chunks: the request
    raises; or the file is opened and the stream fails after [partial] was
    written; or the whole body is written. *)
Inductive get_outcome : Type :=
  | GetRaised (e : exn)
  | GetStreamFailed (e : exn) (partial : string)
  | GetDone (body : string).

Record VideoEnv : Type := {
  gradio_predict : string → string → gmap string string → result gradio_value;
  http_get : gradio_value → get_outcome;
  hf_token : option string;
  (** token and prompt to status code and body *)
  http_post : string → string → result (Z * string);
  json_dumps : list string → string
}.

Definition VIDEO_SPACES : gmap string string :=
  list_to_map
    [("ltx", "Lightricks/LTX-Video");
     ("cogvideo", "THUDM/CogVideoX-5b");
     ("modelscope", "damo-vilab/modelscope-text-to-video-synthesis")].

Definition DEFAULT_SPACE : string := "ltx".

Definition VIDEO_OUTPUT_DIR : string := "outputs/videos".

Definition locations : gmap string string :=
  list_to_map
    [("village_chowk", "village central square with old banyan tree");
     ("ghar_aangan", "rustic home courtyard with mud walls");
     ("khet", "golden wheat fields at sunset");
     ("handpump_area", "village handpump with women gathering water");
     ("panchayat_ground", "open ground with elders sitting")].

Definition emotions : gmap string string :=
  list_to_map
    [("conflict", "tense confrontation, angry gestures");
     ("sadness", "tearful, emotional embrace");
     ("anger_building", "clenched fists, visible frustration");
     ("rage", "explosive anger, dramatic transformation, muscles bulging");
     ("shock", "stunned expressions, stepping back in fear")].

(** Characters that [str.strip()] removes, among the ASCII ones. *)
Definition is_py_space (c : ascii) : bool :=
  let n := nat_of_ascii c in
  ((9 <=? n)%nat && (n <=? 13)%nat) || ((28 <=? n)%nat && (n <=? 32)%nat).

Fixpoint lstrip (s : string) : string :=
  match s with
  | "" => ""
  | String c rest => if is_py_space c then lstrip rest else s
  end.

Fixpoint rstrip (s : string) : string :=
  match s with
  | "" => ""
  | String c rest =>
      match rstrip rest with
      | "" => if is_py_space c then "" else String c ""
      | r => String c r
      end
  end.

(** [s.strip()] *)
Definition strip (s : string) : string := rstrip (lstrip s).

Definition build_video_prompt (scene : video_scene) : string :=
  let emotion := default "neutral" (vsc_emotion scene) in
  let location := default "village_chowk" (vsc_location scene) in
  let base_prompt :=
    strip
      (newline
       +:+ "Rural Indian village scene." +:+ newline
       +:+ default "dusty village road" (locations !! location) +:+ "." +:+ newline
       +:+ "Mud houses, handpump, dusty paths, neem trees in background." +:+ newline
       +:+ "A tall green-skinned muscular man with rippling muscles and torn farmer clothing."
       +:+ newline
       +:+ default "neutral expression" (emotions !! emotion) +:+ "." +:+ newline
       +:+ "Cinematic camera angle, dramatic lighting." +:+ newline
       +:+ "No text, no watermark, no subtitles." +:+ newline
       +:+ "Duration: 5-6 seconds." +:+ newline
       +:+ "    ") in
  base_prompt.

(** [Path(p).touch()]: creates an empty file unless one exists. *)
Definition touch (p : string) : M unit :=
  λ w, (Ok tt,
        {| files := match files w !! p with
                    | Some _ => files w
                    | None => <[p := ""]> (files w)
                    end;
           encodes := encodes w |}).

Section Videos.

Variable V : VideoEnv.

(** [raise] again what the handler caught: [try: body / except Exception as
    e: print(...); raise] behaves as [body]. *)
Definition generate_video_gradio (prompt : string) (scene_id : Z)
    (space_id : string) : M string :=
  try_except_Exception
    (let space_name :=
       default (default "" (VIDEO_SPACES !! DEFAULT_SPACE)) (VIDEO_SPACES !! space_id) in
     result <- (λ w, (gradio_predict V space_name prompt (files w), w)) ;;
     let output_path :=
       path_join VIDEO_OUTPUT_DIR ("scene_" +:+ pretty scene_id +:+ ".mp4") in
     found <- match result with
              | GStr s => path_exists s
              | GOther => ret false
              end ;;
     (if found then
        match result with
        | GStr s =>
            (* shutil.copy(result, output_path) *)
            if bool_decide (s = output_path)
            then raise (OtherError "SameFileError")
            else λ w, (Ok tt,
                       {| files := match files w !! s with
                                   | Some content => <[output_path := content]> (files w)
                                   | None => files w
                                   end;
                          encodes := encodes w |})
        | GOther => ret tt
        end
      else
        match http_get V result with
        | GetRaised e => raise e
        | GetStreamFailed e partial =>
            write_text output_path partial ;;; raise e
        | GetDone body => write_text output_path body
        end) ;;;
     ret output_path)
    (λ e, raise e).

Definition generate_video_api (prompt : string) (scene_id : Z) : M string :=
  match hf_token V with
  | None | Some "" => raise ValueError
  | Some token =>
      response <- (λ w, (http_post V token prompt, w)) ;;
      if bool_decide (response.1 = 200%Z) then
        let output_path :=
          path_join VIDEO_OUTPUT_DIR ("scene_" +:+ pretty scene_id +:+ ".mp4") in
        write_text output_path response.2 ;;;
        ret output_path
      else raise (OtherError "Exception")
  end.

(** [for scene in scenes: ...] of [main] *)
Fixpoint video_loop (scenes : list video_scene) (video_paths : list string)
    : M (list string) :=
  match scenes with
  | [] => ret video_paths
  | scene :: rest =>
      let scene_id :=
        default (Z.of_nat (length video_paths) + 1)%Z (vsc_scene_id scene) in
      let prompt := build_video_prompt scene in
      video_path <-
        try_except_Exception
          (generate_video_gradio prompt scene_id DEFAULT_SPACE)
          (λ e,
             try_except_Exception
               (generate_video_api prompt scene_id)
               (λ e2,
                  let video_path :=
                    path_join VIDEO_OUTPUT_DIR
                      ("scene_" +:+ pretty scene_id +:+ "_placeholder.mp4") in
                  touch video_path ;;;
                  ret video_path)) ;;
      video_loop rest (video_paths ++ [video_path])
  end.

(** [main], from the point where the script has been loaded:
    [scenes = script.get("scenes", [])]. *)
Definition videos_main (scenes : option (list video_scene)) : M unit :=
  video_paths <- video_loop (default [] scenes) [] ;;
  write_text "outputs/video_paths.json" (json_dumps V video_paths).

End Videos.

(** The two names [generate_videos.main] can give the video of a scene. *)
Definition scene_video_path (scene_id : Z) : string :=
  path_join VIDEO_OUTPUT_DIR ("scene_" +:+ pretty scene_id +:+ ".mp4").
Definition placeholder_video_path (scene_id : Z) : string :=
  path_join VIDEO_OUTPUT_DIR ("scene_" +:+ pretty scene_id +:+ "_placeholder.mp4").

(** The location and emotion phrases a prompt can contain. *)
Definition location_phrases : list string :=
  "dusty village road" :: (map_to_list locations).*2.
Definition emotion_phrases : list string :=
  "neutral expression" :: (map_to_list emotions).*2.

(** The prompt for given phrases, as [build_video_prompt] assembles it. *)
Definition prompt_with (location_phrase emotion_phrase : string) : string :=
  "Rural Indian village scene." +:+ newline
  +:+ location_phrase +:+ "." +:+ newline
  +:+ "Mud houses, handpump, dusty paths, neem trees in background." +:+ newline
  +:+ "A tall green-skinned muscular man with rippling muscles and torn farmer clothing."
  +:+ newline
  +:+ emotion_phrase +:+ "." +:+ newline
  +:+ "Cinematic camera angle, dramatic lighting." +:+ newline
  +:+ "No text, no watermark, no subtitles." +:+ newline
  +:+ "Duration: 5-6 seconds.".

(** [needle in haystack] *)
Definition contains (needle haystack : string) : bool :=
  match String.index 0 needle haystack with
  | Some _ => true
  | None => false
  end.

(** Back ends for the examples: both generators are down; the space
    answers with a URL whose download yields an error page. *)
Definition videos_down : VideoEnv :=
  {| gradio_predict := λ _ _ _, Raise (OtherError "ConnectionError");
     http_get := λ _, GetRaised (OtherError "ConnectionError");
     hf_token := None;
     http_post := λ _ _, Raise (OtherError "ConnectionError");
     json_dumps := String.concat "," |}.
Definition videos_error_page : VideoEnv :=
  {| gradio_predict := λ _ _ _, Ok (GStr "https://space.example/file=out.mp4");
     http_get := λ _, GetDone "<html>404 Not Found</html>";
     hf_token := None;
     http_post := λ _ _, Raise (OtherError "ConnectionError");
     json_dumps := String.concat "," |}.

Definition plain_scene : video_scene :=
  {| vsc_scene_id := None; vsc_emotion := None; vsc_location := None |}.

(** Every error of the generation back ends derives from [Exception]. *)
Definition video_errors_ordinary (V : VideoEnv) : Prop :=
  (∀ space prompt fs e,
      gradio_predict V space prompt fs = Raise e → is_Exception e = true) ∧
  (∀ v e, http_get V v = GetRaised e → is_Exception e = true) ∧
  (∀ v e partial, http_get V v = GetStreamFailed e partial → is_Exception e = true) ∧
  (∀ token prompt e, http_post V token prompt = Raise e → is_Exception e = true).

(** What [main] does for one scene: the two generators, then the
    placeholder. *)
Definition video_attempt (V : VideoEnv) (prompt : string) (scene_id : Z)
    : M string :=
  try_except_Exception
    (generate_video_gradio V prompt scene_id DEFAULT_SPACE)
    (λ e,
       try_except_Exception
         (generate_video_api V prompt scene_id)
         (λ e2,
            let video_path :=
              path_join VIDEO_OUTPUT_DIR
                ("scene_" +:+ pretty scene_id +:+ "_placeholder.mp4") in
            touch video_path ;;;
            ret video_path)).

(** * The scheduling loop in binary64

    For statements about the numbers the loop computes, the loop and its
    callers are embedded once more with [float] as IEEE binary64
    ([spec_float], round to nearest even) and with [int()] raising on
    infinities and NaN, as the interpreter does.  [py_float64] is
    [float()]; it may return any double, also an infinity or a NaN. *)

Record loop_state64 : Type := {
  audio_inputs64 : list string;
  filter_parts64 : list string;
  current_time64 : spec_float
}.



Section Doubles.

Variable E : Env.
Variable py_float64 : string → option spec_float.

Definition float_of64 (s : string) : M spec_float :=
  match py_float64 s with
  | Some x => ret x
  | None => raise ValueError
  end.

Definition get_media_duration64 (file_path : string) : M spec_float :=
  try_except
    (result <- run_ffprobe E (probe_cmd file_path) ;;
     float_of64 (py_strip E (stdout result)))
    (ret (Binary64.of_Z 5)).

(** [int(x)]: [OverflowError] on an infinity, [ValueError] on a NaN. *)
Definition py_int64 (x : spec_float) : M Z :=
  match Binary64.to_int x with
  | Some z => ret z
  | None =>
      match x with
      | S754_nan => raise ValueError
      | _ => raise (OtherError "OverflowError")
      end
  end.

(** [f"[{audio_idx}:a]adelay={ms}|{ms}[a{idx}]"] with the two conversions
    done. *)
Definition delay_part64 (audio_idx : nat) (ms1 ms2 : Z) (idx : nat) : string :=
  "[" +:+ pretty audio_idx +:+ ":a]adelay="
      +:+ pretty ms1 +:+ "|" +:+ pretty ms2
      +:+ "[a" +:+ pretty idx +:+ "]".

(** [for idx, audio_info in enumerate(audio_files): ...] *)
Fixpoint compose_loop64 (gap : spec_float) (audio_files : list audio_info)
    (idx : nat) (st : loop_state64) : M loop_state64 :=
  match audio_files with
  | [] => ret st
  | audio_info :: rest =>
      let audio_path := audio_path_of audio_info in
      found <- path_exists audio_path ;;
      if negb found then compose_loop64 gap rest (S idx) st
      else
        let audio_inputs' := audio_inputs64 st ++ ["-i"; audio_path] in
        let audio_idx := idx + 1 in
        ms1 <- py_int64 (Binary64.mul (current_time64 st) (Binary64.of_Z 1000)) ;;
        ms2 <- py_int64 (Binary64.mul (current_time64 st) (Binary64.of_Z 1000)) ;;
        let filter_parts' :=
          filter_parts64 st ++ [delay_part64 audio_idx ms1 ms2 idx] in
        audio_duration <- get_media_duration64 audio_path ;;
        let current_time' :=
          Binary64.add (current_time64 st) (Binary64.add audio_duration gap) in
        compose_loop64 gap rest (S idx)
          {| audio_inputs64 := audio_inputs';
             filter_parts64 := filter_parts';
             current_time64 := current_time' |}
  end.

Definition init_state64 (video_path : string) : loop_state64 :=
  {| audio_inputs64 := ["-i"; video_path];
     filter_parts64 := [];
     current_time64 := Binary64.lead_in |}.


(** What [get_media_duration64] returns, as a function of the file system. *)
Definition probed64 (fs : gmap string string) (file_path : string) : spec_float :=
  match ffprobe E (probe_cmd file_path) fs with
  | Ok cp => default (Binary64.of_Z 5) (py_float64 (py_strip E (stdout cp)))
  | Raise _ => Binary64.of_Z 5
  end.

(** The schedule the loop realises: for each clip that exists, its index in
    the list and the value of [current_time] when its part is made. *)
Fixpoint schedule64 (fs : gmap string string) (gap : spec_float)
    (audio_files : list audio_info) (idx : nat) (cursor : spec_float)
    : list (nat * spec_float) :=
  match audio_files with
  | [] => []
  | a :: rest =>
      if file_exists fs (audio_path_of a)
      then (idx, cursor) ::
           schedule64 fs gap rest (S idx)
             (Binary64.add cursor (Binary64.add (probed64 fs (audio_path_of a)) gap))
      else schedule64 fs gap rest (S idx) cursor
  end.

End Doubles.

(** A [float()] for the examples: a few decimal literals, ["inf"], and the
    text ["huge"] standing for the double 2^60. *)
Definition demo_float64 (s : string) : option spec_float :=
  if String.eqb s "2.0" then Some (Binary64.of_Z 2)
  else if String.eqb s "3.0" then Some (Binary64.of_Z 3)
  else if String.eqb s "1.0" then Some (Binary64.of_Z 1)
  else if String.eqb s "0.4" then Some (Binary64.div (Binary64.of_Z 4) (Binary64.of_Z 10))
  else if String.eqb s "huge" then Some (Binary64.of_Z (2 ^ 60))
  else if String.eqb s "inf" then Some (S754_infinity false)
  else None.


(** * Lemmas on the monad and the loop *)

Lemma get_media_duration_total (E : Env) (p : string) (w : World) :
  ∃ d, get_media_duration E p w = (Ok d, w).
Proof.
  unfold get_media_duration, try_except, bind, run_ffprobe, float_of.
  destruct (ffprobe E (probe_cmd p) (files w)) as [cp|e]; [|by eexists].
  destruct (py_float E (py_strip E (stdout cp))); by eexists.
Qed.

Lemma compose_loop_total (E : Env) (gap : Q) (audio_files : list audio_info) :
  ∀ idx st w, ∃ st', compose_loop E gap audio_files idx st w = (Ok st', w).
Proof.
  induction audio_files as [|a rest IH]; intros idx st w; [by eexists|].
  cbn [compose_loop]. unfold bind at 1. unfold path_exists.
  destruct (file_exists (files w) (audio_path_of a)); cbn [negb]; [|apply IH].
  unfold bind at 1.
  destruct (get_media_duration_total E (audio_path_of a) w) as [d ->].
  apply IH.
Qed.



Lemma start_offsets_step (gap : Q) (ds : list Q) :
  ∀ cursor i t t' d,
    start_offsets gap cursor ds !! i = Some t →
    start_offsets gap cursor ds !! S i = Some t' →
    ds !! i = Some d →
    t' = (t + (d + gap))%Q.
Proof.
  induction ds as [|d0 ds IH]; intros cursor i t t' d Ht Ht' Hd; [done|].
  destruct i as [|i]; cbn in *.
  - simplify_eq. destruct ds as [|d1 ds]; cbn in Ht'; by simplify_eq.
  - eapply IH; eauto.
Qed.

(** * The duration prober *)

(** C7.  The prober never raises.  It returns the parsed number when the
    probe run completes and its stripped output parses, and exactly 5.0 in
    every other case: the run raised (whatever the exception), or the output
    is not a number. *)
Theorem get_media_duration_never_raises (E : Env) (file_path : string) (w : World) :
  (∃ d, get_media_duration E file_path w = (Ok d, w)) ∧
  (∀ cp q,
      ffprobe E (probe_cmd file_path) (files w) = Ok cp →
      py_float E (py_strip E (stdout cp)) = Some q →
      get_media_duration E file_path w = (Ok q, w)) ∧
  (∀ cp,
      ffprobe E (probe_cmd file_path) (files w) = Ok cp →
      py_float E (py_strip E (stdout cp)) = None →
      get_media_duration E file_path w = (Ok 5%Q, w)) ∧
  (∀ e,
      ffprobe E (probe_cmd file_path) (files w) = Raise e →
      get_media_duration E file_path w = (Ok 5%Q, w)).
Proof.
  unfold get_media_duration, try_except, bind, run_ffprobe, float_of.
  destruct (ffprobe E (probe_cmd file_path) (files w)) as [cp|e] eqn:Hrun.
  - destruct (py_float E (py_strip E (stdout cp))) as [q|] eqn:Hq;
      cbn; repeat split; eauto; intros; simplify_eq; congruence.
  - cbn. repeat split; eauto; intros; simplify_eq.
Qed.

Lemma get_media_duration_never_raises_witness :
  get_media_duration env_ok "a.mp3" demo_world = (Ok 2%Q, demo_world) ∧
  get_media_duration env_ok "v.mp4" demo_world = (Ok 5%Q, demo_world) ∧
  get_media_duration env_ok "gone.mp3" demo_world = (Ok 5%Q, demo_world).
Proof.
  pose proof (get_media_duration_never_raises env_ok "a.mp3" demo_world)
    as (_ & Hparsed & _ & _).
  pose proof (get_media_duration_never_raises env_ok "v.mp4" demo_world)
    as (_ & _ & Hgarbled & _).
  pose proof (get_media_duration_never_raises env_ok "gone.mp3" demo_world)
    as (_ & _ & _ & Hraised).
  split; [|split].
  - eapply Hparsed; reflexivity.
  - eapply Hgarbled; reflexivity.
  - eapply Hraised; reflexivity.
Defined.

(** * The timeline scheduler *)

(** The worked example of the specification: durations 2.0 and 3.0 give
    offsets 0.2 and 2.5, that is delays of 200 and 2500 milliseconds. *)
Example schedule_two_clips :
  Forall2 Qeq (start_offsets 0.3%Q 0.2%Q [2%Q; 3%Q]) [0.2%Q; 2.5%Q] ∧
  ∃ st, compose_loop env_ok 0.3%Q [clip "a.mp3" 1; clip "b.mp3" 2] 0
                     (init_state "v.mp4") demo_world = (Ok st, demo_world) ∧
        filter_parts st = ["[1:a]adelay=200|200[a0]"; "[2:a]adelay=2500|2500[a1]"].
Proof.
  split.
  - repeat constructor; reflexivity.
  - eexists. split; [vm_compute; reflexivity | reflexivity].
Qed.

(** The same example in binary64: the second offset is exactly the double
    2.5 and the two delays are 200 and 2500 milliseconds. *)
Example schedule_two_clips_binary64 :
  Binary64.advance Binary64.lead_in (Binary64.of_Z 2) =
    Binary64.div (Binary64.of_Z 5) (Binary64.of_Z 2) ∧
  Binary64.delay_ms Binary64.lead_in = Some 200%Z ∧
  Binary64.delay_ms (Binary64.advance Binary64.lead_in (Binary64.of_Z 2)) =
    Some 2500%Z.
Proof. repeat split; vm_compute; reflexivity. Qed.


(** * The scene compositor *)

Lemma compose_loop_all_missing (E : Env) (gap : Q) (w : World)
    (audio_files : list audio_info) :
  Forall (λ a, file_exists (files w) (audio_path_of a) = false) audio_files →
  ∀ idx st, compose_loop E gap audio_files idx st w = (Ok st, w).
Proof.
  induction 1 as [|a rest Ha _ IH]; intros idx st; [done|].
  cbn [compose_loop]. unfold bind at 1. unfold path_exists.
  rewrite Ha. cbn [negb]. apply IH.
Qed.

Lemma compose_loop_order_blind (E : Env) (gap : Q) (l1 l2 : list audio_info) :
  Forall2 differ_only_in_order l1 l2 →
  ∀ idx st w, compose_loop E gap l1 idx st w = compose_loop E gap l2 idx st w.
Proof.
  induction 1 as [|a b r1 r2 (Hpath & _) _ IH]; intros idx st w; [done|].
  cbn [compose_loop]. unfold audio_path_of. rewrite Hpath.
  unfold bind at 1 3. unfold path_exists.
  destruct (file_exists (files w) (default "" (path b))); cbn [negb]; [|apply IH].
  unfold bind.
  destruct (get_media_duration E (default "" (path b)) w) as [[d|e] w1]; [|done].
  apply IH.
Qed.

(** What the body of [compose_scene] does once the video exists and the loop
    has returned: one lemma for all three theorems on the compositor. *)
Lemma compose_scene_after_loop (E : Env) (scene_id : Z) (video_path : string)
    (audio_files : list audio_info) (w : World) (st : loop_state) :
  file_exists (files w) video_path = true →
  compose_loop E 0.3%Q audio_files 0 (init_state video_path) w = (Ok st, w) →
  compose_scene E scene_id video_path audio_files w =
    match filter_parts st with
    | [] =>
        (run_ffmpeg E (passthrough_cmd video_path (composed_path scene_id)) ;;;
         ret (Some (composed_path scene_id))) w
    | _ :: _ =>
        (result <- run_ffmpeg E (mix_cmd (audio_inputs st) (filter_parts st)
                                         (composed_path scene_id)) ;;
         (if bool_decide (returncode result ≠ 0%Z)
          then run_ffmpeg E (passthrough_cmd video_path (composed_path scene_id)) ;;;
               ret tt
          else ret tt) ;;;
         ret (Some (composed_path scene_id))) w
    end.
Proof.
  intros Hv Hloop. unfold compose_scene.
  unfold bind at 1. unfold path_exists. rewrite Hv. cbn [negb].
  destruct audio_files as [|a rest].
  - injection Hloop as <-. reflexivity.
  - unfold bind at 1.
    destruct (get_media_duration_total E video_path w) as [d ->].
    unfold bind at 1. rewrite Hloop. by destruct (filter_parts st).
Qed.

(** C10.  Dialogue lists that differ only in the [order] fields of their
    records give the same loop result (offsets, filter parts, inputs) and the
    same run of [compose_scene]: the same return value and the same encode
    commands. *)
Theorem compose_scene_ignores_order (E : Env) (scene_id : Z) (video_path : string)
    (l1 l2 : list audio_info) (w : World) :
  Forall2 differ_only_in_order l1 l2 →
  compose_loop E 0.3%Q l1 0 (init_state video_path) w =
    compose_loop E 0.3%Q l2 0 (init_state video_path) w ∧
  compose_scene E scene_id video_path l1 w =
    compose_scene E scene_id video_path l2 w.
Proof.
  intros H. split; [by apply compose_loop_order_blind|].
  destruct (file_exists (files w) video_path) eqn:Hv.
  - destruct (compose_loop_total E 0.3%Q l1 0 (init_state video_path) w)
      as [st Hst].
    rewrite (compose_scene_after_loop E scene_id video_path l1 w st Hv Hst).
    rewrite (compose_loop_order_blind E 0.3%Q l1 l2 H) in Hst.
    by rewrite (compose_scene_after_loop E scene_id video_path l2 w st Hv Hst).
  - unfold compose_scene, bind, path_exists. by rewrite Hv.
Qed.

Lemma compose_scene_ignores_order_witness :
  compose_loop env_ok 0.3%Q [clip "a.mp3" 1; clip "b.mp3" 2] 0
               (init_state "v.mp4") demo_world =
    compose_loop env_ok 0.3%Q [clip "a.mp3" 7; clip "b.mp3" (-4)] 0
                 (init_state "v.mp4") demo_world ∧
  compose_scene env_ok 1 "v.mp4" [clip "a.mp3" 1; clip "b.mp3" 2] demo_world =
    compose_scene env_ok 1 "v.mp4" [clip "a.mp3" 7; clip "b.mp3" (-4)] demo_world.
Proof.
  apply (compose_scene_ignores_order env_ok 1 "v.mp4"
           [clip "a.mp3" 1; clip "b.mp3" 2] [clip "a.mp3" 7; clip "b.mp3" (-4)]
           demo_world).
  repeat constructor.
Defined.

Lemma run_ffmpeg_run (E : Env) (cmd : list string) (w : World) :
  run_ffmpeg E cmd w =
    (Ok (ffmpeg E cmd (files w)).1,
     {| files := partial_alter (λ _, (ffmpeg E cmd (files w)).2)
                               (List.last cmd "") (files w);
        encodes := encodes w ++ [cmd] |}).
Proof. unfold run_ffmpeg. by destruct (ffmpeg E cmd (files w)). Qed.

Lemma last_passthrough_cmd (v out : string) :
  List.last (passthrough_cmd v out) "" = out.
Proof. reflexivity. Qed.

Lemma last_app_nonempty {A} (l : list A) (x : A) (t : list A) (d : A) :
  List.last (l ++ x :: t) d = List.last (x :: t) d.
Proof.
  induction l as [|y l IH]; [done|].
  cbn [app]. rewrite <- IH. by destruct l.
Qed.

Lemma last_mix_cmd (inputs parts : list string) (out : string) :
  List.last (mix_cmd inputs parts out) "" = out.
Proof.
  unfold mix_cmd. rewrite app_assoc. by rewrite last_app_nonempty.
Qed.



(** C6, as the code has it.  When the video exists and the dialogue list is
    empty or names only missing files, [compose_scene] runs exactly the
    video-only copy ([-c:v copy -an]) and returns the composed path.  The
    exit status of the copy is not looked at: the composed file exists
    afterwards exactly when the copy left one. *)
Theorem no_audio_takes_passthrough (E : Env) (scene_id : Z) (video_path : string)
    (audio_files : list audio_info) (w : World) :
  file_exists (files w) video_path = true →
  Forall (λ a, file_exists (files w) (audio_path_of a) = false) audio_files →
  let out := composed_path scene_id in
  let copy := ["ffmpeg"; "-y"; "-i"; video_path; "-c:v"; "copy"; "-an"; out] in
  ∃ w',
    compose_scene E scene_id video_path audio_files w = (Ok (Some out), w') ∧
    encodes w' = encodes w ++ [copy] ∧
    files w' !! out = (ffmpeg E copy (files w)).2 ∧
    (file_exists (files w') out = true ↔ is_Some (ffmpeg E copy (files w)).2).
Proof.
  intros Hv Hmissing out copy.
  pose proof (compose_loop_all_missing E 0.3%Q w audio_files Hmissing 0
                (init_state video_path)) as Hloop.
  rewrite (compose_scene_after_loop E scene_id video_path audio_files w _ Hv Hloop).
  cbn [filter_parts init_state]. unfold bind. rewrite run_ffmpeg_run.
  eexists. split; [reflexivity|]. cbn [files encodes].
  change (List.last (passthrough_cmd video_path (composed_path scene_id)) "") with out.
  change (passthrough_cmd video_path (composed_path scene_id)) with copy.
  rewrite lookup_partial_alter_eq. do 2 (split; [done|]).
  unfold file_exists. rewrite lookup_partial_alter_eq. apply bool_decide_eq_true.
Qed.

Lemma no_audio_takes_passthrough_witness :
  ∃ w',
    compose_scene env_ok 1 "v.mp4" [clip "gone.mp3" 1] demo_world =
      (Ok (Some "outputs/composed/scene_1_composed.mp4"), w') ∧
    encodes w' = [["ffmpeg"; "-y"; "-i"; "v.mp4"; "-c:v"; "copy"; "-an";
                   "outputs/composed/scene_1_composed.mp4"]] ∧
    files w' !! "outputs/composed/scene_1_composed.mp4" = Some "media" ∧
    (file_exists (files w') "outputs/composed/scene_1_composed.mp4" = true ↔
     is_Some (Some "media")).
Proof.
  apply (no_audio_takes_passthrough env_ok 1 "v.mp4" [clip "gone.mp3" 1] demo_world).
  - reflexivity.
  - repeat constructor.
Defined.

(** C6 as stated fails: the video exists (a zero-byte placeholder, say), no
    dialogue is given, the copy is rejected by the encoder, and the function
    still returns the composed path although no such file exists. *)
Lemma passthrough_output_can_be_absent :
  file_exists (files demo_world) "v.mp4" = true ∧
  ∃ w',
    compose_scene env_reject 1 "v.mp4" [] demo_world =
      (Ok (Some (composed_path 1)), w') ∧
    file_exists (files w') (composed_path 1) = false.
Proof. split; [reflexivity|]. eexists. split; [vm_compute|]; reflexivity. Qed.

(** C2 at a failing input.  The first clip is missing and the second exists.
    The command supplies two inputs (the video as 0, the clip as 1), yet the
    delay part reads input 2 and writes label [a1], while the mix reads label
    [a0].  Numbered as supplied, the part would be [[1:a]...[a0]]. *)
Theorem missing_clip_shifts_indices :
  file_exists (files demo_world) "v.mp4" = true ∧
  file_exists (files demo_world) "gone.mp3" = false ∧
  file_exists (files demo_world) "b.mp3" = true ∧
  ∃ st w',
    compose_loop env_ok 0.3%Q [clip "gone.mp3" 1; clip "b.mp3" 2] 0
                 (init_state "v.mp4") demo_world = (Ok st, demo_world) ∧
    audio_inputs st = ["-i"; "v.mp4"; "-i"; "b.mp3"] ∧
    filter_parts st = ["[2:a]adelay=200|200[a1]"] ∧
    consistent_parts [0.2%Q] = ["[1:a]adelay=200|200[a0]"] ∧
    filter_parts st ≠ consistent_parts [0.2%Q] ∧
    compose_scene env_ok 1 "v.mp4" [clip "gone.mp3" 1; clip "b.mp3" 2] demo_world =
      (Ok (Some "outputs/composed/scene_1_composed.mp4"), w') ∧
    encodes w' =
      [["ffmpeg"; "-y"; "-i"; "v.mp4"; "-i"; "b.mp3";
        "-filter_complex";
        "[2:a]adelay=200|200[a1];[a0]amix=inputs=1:duration=longest[aout]";
        "-map"; "0:v"; "-map"; "[aout]";
        "-c:v"; "libx264"; "-preset"; "fast";
        "-c:a"; "aac"; "-b:a"; "128k"; "-shortest";
        "outputs/composed/scene_1_composed.mp4"]].
Proof.
  repeat (split; [reflexivity|]).
  eexists _, _. split; [vm_compute; reflexivity|].
  do 3 (split; [reflexivity|]). split; [discriminate|].
  split; [vm_compute|]; reflexivity.
Qed.

(** * Scenes in sequence, and the reel merger *)

Lemma composed_path_is_output (scene_id : Z) :
  is_composed_output (composed_path scene_id) = true.
Proof. reflexivity. Qed.

Lemma not_output_ne_composed_path (p : string) (scene_id : Z) :
  is_composed_output p = false → composed_path scene_id ≠ p.
Proof. intros Hp <-. by rewrite composed_path_is_output in Hp. Qed.

(** [compose_scene] as seen by its caller: it never raises, answers by the
    existence of the video alone, and writes nowhere but to its own output. *)
Lemma compose_scene_spec (E : Env) (scene_id : Z) (video_path : string)
    (audio_files : list audio_info) (w : World) :
  ∃ w',
    compose_scene E scene_id video_path audio_files w =
      (Ok (if file_exists (files w) video_path
           then Some (composed_path scene_id) else None), w') ∧
    (file_exists (files w) video_path = false → w' = w) ∧
    (∀ p, is_composed_output p = false → files w' !! p = files w !! p).
Proof.
  destruct (file_exists (files w) video_path) eqn:Hv.
  - destruct (compose_loop_total E 0.3%Q audio_files 0 (init_state video_path) w)
      as [st Hst].
    rewrite (compose_scene_after_loop E scene_id video_path audio_files w st Hv Hst).
    destruct (filter_parts st) as [|part parts]; unfold bind;
      rewrite run_ffmpeg_run; [|case_bool_decide; [rewrite run_ffmpeg_run|]];
      cbn [ret files encodes]; eexists; (split; [reflexivity|]);
      (split; [done|]); intros p Hp;
      rewrite ?last_mix_cmd, ?last_passthrough_cmd; cbn [files];
      rewrite !lookup_partial_alter_ne
        by (by apply not_output_ne_composed_path); done.
  - exists w. unfold compose_scene, bind, path_exists. rewrite Hv. by cbn.
Qed.

Lemma compose_all_run (E : Env) (audio_by_scene : gmap Z (list audio_info))
    (video_paths : list string) :
  ∀ idx w, ∃ l w',
    compose_all E audio_by_scene video_paths idx w = (Ok l, w') ∧
    (∀ p, is_composed_output p = false → files w' !! p = files w !! p) ∧
    (Forall (λ v, is_composed_output v = false) video_paths →
     l = imap (λ k v, if file_exists (files w) v
                      then Some (composed_path (Z.of_nat (idx + k) + 1))
                      else None) video_paths).
Proof.
  induction video_paths as [|v rest IH]; intros idx w.
  - exists [], w. by cbn.
  - cbn [compose_all]. unfold bind at 1.
    destruct (compose_scene_spec E (Z.of_nat idx + 1) v
                (default [] (audio_by_scene !! (Z.of_nat idx + 1)%Z)) w)
      as (w1 & -> & _ & Hframe1).
    unfold bind at 1.
    destruct (IH (S idx) w1) as (l & w' & -> & Hframe & Hl).
    eexists _, w'. split; [reflexivity|]. split.
    + intros p Hp. by rewrite Hframe, Hframe1.
    + intros Hvs. apply Forall_cons in Hvs as [Hv Hrest].
      cbn [imap]. rewrite Nat.add_0_r. f_equal.
      rewrite (Hl Hrest). apply imap_ext. intros k v' Hk. cbn.
      unfold file_exists. rewrite Hframe1.
      * by replace (idx + S k) with (S idx + k) by lia.
      * by eapply (Forall_lookup_1 _ _ _ _ Hrest).
Qed.

(** [merge_scenes] in closed form. *)
Lemma merge_scenes_run (E : Env) (composed_videos : list (option string))
    (w : World) :
  merge_scenes E composed_videos w =
    match valid_videos (files w) composed_videos with
    | [] => (Ok None, w)
    | v :: vs =>
        let fs1 := <[concat_list_path := manifest E (v :: vs)]> (files w) in
        let cmd := merge_cmd concat_list_path final_reel_path in
        (Ok (if bool_decide (returncode (ffmpeg E cmd fs1).1 ≠ 0%Z)
             then None else Some final_reel_path),
         {| files := partial_alter (λ _, (ffmpeg E cmd fs1).2) final_reel_path fs1;
            encodes := encodes w ++ [cmd] |})
    end.
Proof.
  unfold merge_scenes. unfold bind at 1.
  destruct (valid_videos (files w) composed_videos) as [|v vs]; [done|].
  unfold bind at 1. unfold write_text. unfold bind at 1.
  rewrite run_ffmpeg_run. cbn [files encodes]. cbv zeta.
  case_bool_decide; [done|].
  unfold bind.
  change (List.last (merge_cmd concat_list_path final_reel_path) "")
    with final_reel_path.
  match goal with
  | |- context [get_media_duration E final_reel_path ?w1] =>
      destruct (get_media_duration_total E final_reel_path w1) as [d ->]
  end.
  done.
Qed.

Lemma valid_videos_filter (fs : gmap string string)
    (composed_videos : list (option string)) :
  valid_videos fs composed_videos =
    filter (λ p, p ≠ "" ∧ file_exists fs p = true) (omap id composed_videos).
Proof.
  induction composed_videos as [|[p|] rest IH]; [done| |done].
  cbn [valid_videos truthy].
  change (omap id (Some p :: rest)) with (p :: omap id rest).
  rewrite filter_cons. rewrite <- IH.
  destruct (decide (p ≠ "" ∧ file_exists fs p = true)) as [[Hp Hf]|Hn].
  - by rewrite (bool_decide_eq_true_2 _ Hp), Hf.
  - case_bool_decide; [|done].
    destruct (file_exists fs p); [|done]. by destruct Hn.
Qed.

(** C4, as the code has it.  [merge_scenes] keeps, in their order, the
    entries that are not none, not empty and name existing files.  With
    nothing kept it returns none and touches nothing.  Otherwise it writes
    the manifest, one [file '...'] line per kept entry in that order, and
    runs exactly one encode, from the manifest to the one final path; it
    returns that path when the encode exits with status zero and none
    otherwise. *)
Theorem merge_scenes_manifest (E : Env) (composed_videos : list (option string))
    (w : World) :
  let valid := valid_videos (files w) composed_videos in
  let lines :=
    String.concat ""
      (map (λ v, "file '" +:+ absolute E v +:+ "'" +:+ newline) valid) in
  let cmd := merge_cmd "outputs/final/concat_list.txt"
                       "outputs/final/final_reel.mp4" in
  valid = filter (λ p, p ≠ "" ∧ file_exists (files w) p = true)
                 (omap id composed_videos) ∧
  (valid = [] → merge_scenes E composed_videos w = (Ok None, w)) ∧
  (valid ≠ [] →
   ∃ r w',
     merge_scenes E composed_videos w = (Ok r, w') ∧
     files w' !! "outputs/final/concat_list.txt" = Some lines ∧
     encodes w' = encodes w ++ [cmd] ∧
     r = (if bool_decide
               (returncode
                  (ffmpeg E cmd (<["outputs/final/concat_list.txt" := lines]>
                                   (files w))).1 = 0%Z)
          then Some "outputs/final/final_reel.mp4" else None)).
Proof.
  intros valid lines cmd. split; [apply valid_videos_filter|].
  rewrite merge_scenes_run. fold valid. split.
  - by intros ->.
  - intros Hne. destruct valid as [|v vs] eqn:Hvalid; [done|].
    cbv zeta. eexists _, _. split; [reflexivity|]. cbn [files encodes].
    split; [|split; [done|]].
    + rewrite lookup_partial_alter_ne by done.
      by rewrite lookup_insert_eq.
    + change (manifest E (v :: vs)) with lines.
      change (merge_cmd concat_list_path final_reel_path) with cmd.
      change final_reel_path with "outputs/final/final_reel.mp4".
      change concat_list_path with "outputs/final/concat_list.txt".
      repeat case_bool_decide; done.
Qed.

Lemma merge_scenes_manifest_witness :
  valid_videos (files demo_world)
    [None; Some "v.mp4"; Some ""; Some "nowhere.mp4"; Some "a.mp3"] =
    ["v.mp4"; "a.mp3"] ∧
  ∃ w',
    merge_scenes env_ok
      [None; Some "v.mp4"; Some ""; Some "nowhere.mp4"; Some "a.mp3"] demo_world =
      (Ok (Some "outputs/final/final_reel.mp4"), w') ∧
    files w' !! "outputs/final/concat_list.txt" =
      Some ("file '/work/v.mp4'" +:+ newline +:+ "file '/work/a.mp3'" +:+ newline) ∧
    encodes w' = [merge_cmd "outputs/final/concat_list.txt"
                            "outputs/final/final_reel.mp4"].
Proof.
  split; [reflexivity|].
  destruct (merge_scenes_manifest env_ok
              [None; Some "v.mp4"; Some ""; Some "nowhere.mp4"; Some "a.mp3"]
              demo_world) as (_ & _ & H).
  destruct H as (r & w' & Hm & Hfile & Henc & Hr); [discriminate|].
  exists w'. rewrite Hm, Hr. split; [reflexivity|]. split; [exact Hfile | exact Henc].
Defined.

(** C4 as stated fails: one valid entry, the concatenation is rejected by
    the encoder, and there is no output: the function returns none and no
    final reel exists. *)
Lemma merge_can_end_without_output :
  valid_videos (files demo_world) [Some "v.mp4"] = ["v.mp4"] ∧
  ∃ w',
    merge_scenes env_reject [Some "v.mp4"] demo_world = (Ok None, w') ∧
    file_exists (files w') final_reel_path = false.
Proof. split; [reflexivity|]. eexists. split; [vm_compute|]; reflexivity. Qed.



(** * The run as a whole *)

Lemma merge_scenes_frame (E : Env) (composed_videos : list (option string))
    (w : World) (r : result (option string)) (w' : World) :
  merge_scenes E composed_videos w = (r, w') →
  files w' !! sidecar_path = files w !! sidecar_path ∧
  (r = Ok None ∨ r = Ok (Some final_reel_path)).
Proof.
  rewrite merge_scenes_run.
  destruct (valid_videos (files w) composed_videos) as [|v vs].
  - intros [= <- <-]. by split; [|left].
  - cbv zeta. intros [= <- <-]. cbn [files]. split.
    + rewrite lookup_partial_alter_ne by done. by rewrite lookup_insert_ne.
    + case_bool_decide; [by left | by right].
Qed.

(** C8.  When the merge encode exits with a non-zero status, [merge_scenes]
    returns none after that single encode.  Whenever [merge_scenes] returns
    none, [main] ends in [sys.exit(1)], so the exit status is 1, and the
    sidecar file is as it was before the run.  When [merge_scenes] returns a
    path, [main] ends normally and the sidecar holds that path. *)
Theorem merge_failure_ends_run (E : Env) (video_paths : list string)
    (audio_data : list (Z * list audio_info)) (w : World)
    (composed : list (option string)) (w1 : World) :
  compose_all E (audio_lookup audio_data) video_paths 0 w = (Ok composed, w1) →
  let cmd := merge_cmd "outputs/final/concat_list.txt"
                       "outputs/final/final_reel.mp4" in
  let fs1 := <["outputs/final/concat_list.txt" :=
                 manifest E (valid_videos (files w1) composed)]> (files w1) in
  (valid_videos (files w1) composed ≠ [] →
   returncode (ffmpeg E cmd fs1).1 ≠ 0%Z →
   ∃ w2, merge_scenes E composed w1 = (Ok None, w2) ∧
         encodes w2 = encodes w1 ++ [cmd]) ∧
  (∀ w2, merge_scenes E composed w1 = (Ok None, w2) →
         main E video_paths audio_data w = (Raise (SystemExit 1), w2) ∧
         exit_status (main E video_paths audio_data w).1 = 1%Z ∧
         files w2 !! "outputs/final_reel_path.txt" =
           files w !! "outputs/final_reel_path.txt") ∧
  (∀ p w2, merge_scenes E composed w1 = (Ok (Some p), w2) →
           main E video_paths audio_data w =
             (Ok tt, {| files := <["outputs/final_reel_path.txt" := p]> (files w2);
                        encodes := encodes w2 |}) ∧
           exit_status (main E video_paths audio_data w).1 = 0%Z).
Proof.
  intros Hall cmd fs1.
  assert (files w1 !! sidecar_path = files w !! sidecar_path) as Hside.
  { destruct (compose_all_run E (audio_lookup audio_data) video_paths 0 w)
      as (l & w' & Hrun & Hframe & _).
    rewrite Hall in Hrun. injection Hrun as <- <-. by apply Hframe. }
  split; [|split].
  - intros Hvalid Hrc. rewrite merge_scenes_run.
    subst fs1 cmd.
    destruct (valid_videos (files w1) composed) as [|v vs]; [done|].
    cbv zeta.
    change concat_list_path with "outputs/final/concat_list.txt".
    change final_reel_path with "outputs/final/final_reel.mp4".
    rewrite bool_decide_eq_true_2 by done.
    eexists. split; reflexivity.
  - intros w2 Hmerge.
    assert (main E video_paths audio_data w = (Raise (SystemExit 1), w2)) as Hmain.
    { unfold main. unfold bind at 1. rewrite Hall.
      unfold bind at 1. by rewrite Hmerge. }
    rewrite Hmain. repeat split.
    destruct (merge_scenes_frame E composed w1 _ _ Hmerge) as [Hf _].
    change "outputs/final_reel_path.txt" with sidecar_path. by rewrite Hf.
  - intros p w2 Hmerge.
    assert (p = final_reel_path) as ->.
    { destruct (merge_scenes_frame E composed w1 _ _ Hmerge) as [_ [?|?]];
        by simplify_eq. }
    assert (main E video_paths audio_data w =
              (Ok tt, {| files := <[sidecar_path := final_reel_path]> (files w2);
                         encodes := encodes w2 |})) as Hmain.
    { unfold main. unfold bind at 1. rewrite Hall.
      unfold bind at 1. by rewrite Hmerge. }
    by rewrite Hmain.
Qed.

(** One scene is composed, then the concatenation fails. *)
Lemma merge_failure_ends_run_witness :
  ∃ w2,
    main env_merge_fails ["v.mp4"] [(1%Z, [clip "a.mp3" 1])] demo_world =
      (Raise (SystemExit 1), w2) ∧
    exit_status (main env_merge_fails ["v.mp4"] [(1%Z, [clip "a.mp3" 1])]
                      demo_world).1 = 1%Z ∧
    files w2 !! "outputs/final_reel_path.txt" = None ∧
    encodes w2 =
      [mix_cmd ["-i"; "v.mp4"; "-i"; "a.mp3"] ["[1:a]adelay=200|200[a0]"]
               "outputs/composed/scene_1_composed.mp4";
       merge_cmd "outputs/final/concat_list.txt" "outputs/final/final_reel.mp4"].
Proof.
  edestruct (merge_failure_ends_run env_merge_fails ["v.mp4"]
               [(1%Z, [clip "a.mp3" 1])] demo_world) as (Hfail & Hexit & _).
  { vm_compute. reflexivity. }
  destruct Hfail as (w2 & Hmerge & Henc); [discriminate | vm_compute; discriminate |].
  destruct (Hexit w2 Hmerge) as (Hmain & Hstatus & Hside).
  exists w2. split; [exact Hmain|]. split; [exact Hstatus|].
  split; [exact Hside | exact Henc].
Defined.

(** A run in which every encode succeeds writes the sidecar. *)
Example successful_run_writes_sidecar :
  ∃ w2,
    main env_ok ["v.mp4"] [(1%Z, [clip "a.mp3" 1])] demo_world = (Ok tt, w2) ∧
    files w2 !! "outputs/final_reel_path.txt" = Some "outputs/final/final_reel.mp4" ∧
    files w2 !! "outputs/final/concat_list.txt" =
      Some ("file '/work/outputs/composed/scene_1_composed.mp4'" +:+ newline).
Proof. eexists. split; [vm_compute; reflexivity|]. split; reflexivity. Qed.

(** * Further properties of the compositor *)


Lemma existing_clips_cons (fs : gmap string string) (a : audio_info)
    (l : list audio_info) :
  existing_clips fs (a :: l) =
    if file_exists fs (audio_path_of a)
    then a :: existing_clips fs l else existing_clips fs l.
Proof.
  unfold existing_clips. rewrite filter_cons.
  destruct (file_exists fs (audio_path_of a)); by case_decide.
Qed.

(** The state the loop leaves, for any mix of existing and missing clips. *)
Lemma compose_loop_existing (E : Env) (gap : Q) (w : World) :
  ∀ l ds idx st,
    Forall2 (λ a d, get_media_duration E (audio_path_of a) w = (Ok d, w))
            (existing_clips (files w) l) ds →
    ∃ st' new,
      compose_loop E gap l idx st w = (Ok st', w) ∧
      filter_parts st' = filter_parts st ++ new ∧
      length new = length ds ∧
      audio_inputs st' =
        audio_inputs st ++
        flat_map (λ a, ["-i"; audio_path_of a]) (existing_clips (files w) l) ∧
      (current_time st' ==
         current_time st + sum_Q (map (λ d, d + gap) ds))%Q.
Proof.
  induction l as [|a l IH]; intros ds idx st Hds.
  - apply Forall2_nil_inv_l in Hds as ->.
    exists st, []. cbn. rewrite !app_nil_r. repeat split; try done. lra.
  - rewrite existing_clips_cons in *. cbn [compose_loop].
    unfold bind at 1. unfold path_exists.
    destruct (file_exists (files w) (audio_path_of a)); cbn [negb].
    + apply Forall2_cons_inv_l in Hds as (d & ds' & Hd & Hds' & ->).
      unfold bind at 1. rewrite Hd.
      edestruct (IH ds' (S idx)) as (st' & new & -> & Hparts & Hlen & Hin & Ht);
        [exact Hds'|].
      cbn [filter_parts audio_inputs current_time] in *.
      eexists st', (_ :: new). split; [done|]. split; [|split; [|split]].
      * rewrite Hparts. by rewrite <- app_assoc.
      * cbn. by rewrite Hlen.
      * rewrite Hin. cbn [flat_map]. by rewrite <- app_assoc.
      * rewrite Ht. cbn [map sum_Q]. lra.
    + by apply IH.
Qed.

Lemma probes_exist (E : Env) (w : World) (l : list audio_info) :
  ∃ ds, Forall2 (λ a d, get_media_duration E (audio_path_of a) w = (Ok d, w)) l ds.
Proof.
  induction l as [|a l [ds IH]]; [by exists []|].
  destruct (get_media_duration_total E (audio_path_of a) w) as [d Hd].
  exists (d :: ds). by constructor.
Qed.

(** * The scheduling loop in binary64: lemmas and theorems *)

Lemma get_media_duration64_probed (E : Env) (py_float64 : string → option spec_float)
    (p : string) (w : World) :
  get_media_duration64 E py_float64 p w = (Ok (probed64 E py_float64 (files w) p), w).
Proof.
  unfold get_media_duration64, probed64, try_except, bind, run_ffprobe, float_of64.
  destruct (ffprobe E (probe_cmd p) (files w)) as [cp|e]; [|done].
  by destruct (py_float64 (py_strip E (stdout cp))).
Qed.

Lemma py_int64_run (x : spec_float) (w : World) :
  match Binary64.to_int x with
  | Some z => py_int64 x w = (Ok z, w)
  | None => ∃ e, py_int64 x w = (Raise e, w)
  end.
Proof.
  unfold py_int64. destruct (Binary64.to_int x); [done|].
  destruct x; by eexists.
Qed.

(** The loop never touches the world. *)
Lemma compose_loop64_world (E : Env) (py_float64 : string → option spec_float)
    (gap : spec_float) (audio_files : list audio_info) :
  ∀ idx st w, (compose_loop64 E py_float64 gap audio_files idx st w).2 = w.
Proof.
  induction audio_files as [|a rest IH]; intros idx st w; [done|].
  cbn [compose_loop64]. unfold bind at 1. unfold path_exists.
  destruct (file_exists (files w) (audio_path_of a)); cbn [negb]; [|apply IH].
  unfold bind at 1.
  pose proof (py_int64_run
    (Binary64.mul (current_time64 st) (Binary64.of_Z 1000)) w) as Hint.
  destruct (Binary64.to_int _) as [ms|]; [|by destruct Hint as [e ->]].
  rewrite Hint. unfold bind at 1. rewrite Hint.
  unfold bind at 1. rewrite get_media_duration64_probed. apply IH.
Qed.

(** The loop returns exactly when every scheduled offset has a millisecond
    value, and then it has made one part per scheduled clip. *)
Lemma compose_loop64_returns (E : Env) (py_float64 : string → option spec_float)
    (gap : spec_float) (audio_files : list audio_info) :
  ∀ idx st w,
    Forall (λ it : nat * spec_float, is_Some (Binary64.delay_ms it.2))
           (schedule64 E py_float64 (files w) gap audio_files idx (current_time64 st)) →
    ∃ t_end,
      compose_loop64 E py_float64 gap audio_files idx st w =
        (Ok {| audio_inputs64 :=
                 audio_inputs64 st ++
                 flat_map (λ a, ["-i"; audio_path_of a])
                          (existing_clips (files w) audio_files);
               filter_parts64 :=
                 filter_parts64 st ++
                 map (λ it : nat * spec_float,
                        let ms := default 0%Z (Binary64.delay_ms it.2) in
                        delay_part64 (it.1 + 1) ms ms it.1)
                     (schedule64 E py_float64 (files w) gap audio_files idx
                                 (current_time64 st));
               current_time64 := t_end |}, w).
Proof.
  induction audio_files as [|a rest IH]; intros idx st w Hall.
  - exists (current_time64 st). cbn. rewrite !app_nil_r. by destruct st.
  - cbn [compose_loop64 schedule64] in *. unfold bind at 1. unfold path_exists.
    rewrite existing_clips_cons.
    destruct (file_exists (files w) (audio_path_of a)) eqn:Hex; cbn [negb].
    + apply Forall_cons in Hall as [[ms Hms] Hall]. cbn [snd] in Hms.
      unfold bind at 1.
      pose proof (py_int64_run
        (Binary64.mul (current_time64 st) (Binary64.of_Z 1000)) w) as Hint.
      unfold Binary64.delay_ms in Hms. rewrite Hms in Hint.
      rewrite Hint. unfold bind at 1. rewrite Hint.
      unfold bind at 1. rewrite get_media_duration64_probed.
      edestruct IH as [t_end ->]; [exact Hall|].
      exists t_end. cbn [audio_inputs64 filter_parts64 current_time64].
      cbn [flat_map map fst snd]. unfold Binary64.delay_ms. rewrite Hms.
      cbn [default]. by rewrite <- !app_assoc.
    + by apply IH.
Qed.

Lemma compose_loop64_only_returns (E : Env) (py_float64 : string → option spec_float)
    (gap : spec_float) (audio_files : list audio_info) :
  ∀ idx st w st' w',
    compose_loop64 E py_float64 gap audio_files idx st w = (Ok st', w') →
    Forall (λ it : nat * spec_float, is_Some (Binary64.delay_ms it.2))
           (schedule64 E py_float64 (files w) gap audio_files idx (current_time64 st)).
Proof.
  induction audio_files as [|a rest IH]; intros idx st w st' w' Hrun; [constructor|].
  cbn [compose_loop64 schedule64] in *. unfold bind at 1 in Hrun.
  unfold path_exists in Hrun.
  destruct (file_exists (files w) (audio_path_of a)) eqn:Hex; cbn [negb] in Hrun;
    [|by eapply IH].
  unfold bind at 1 in Hrun.
  pose proof (py_int64_run
    (Binary64.mul (current_time64 st) (Binary64.of_Z 1000)) w) as Hint.
  destruct (Binary64.to_int _) as [ms|] eqn:Hms;
    [|destruct Hint as [e He]; by rewrite He in Hrun].
  rewrite Hint in Hrun. unfold bind at 1 in Hrun. rewrite Hint in Hrun.
  unfold bind at 1 in Hrun. rewrite get_media_duration64_probed in Hrun.
  constructor.
  - cbn [snd]. unfold Binary64.delay_ms. by rewrite Hms.
  - apply IH in Hrun. exact Hrun.
Qed.









Lemma schedule64_nonempty_audio (E : Env) (py_float64 : string → option spec_float)
    (fs : gmap string string) (gap : spec_float) (audio_files : list audio_info)
    (idx : nat) (cursor : spec_float) :
  schedule64 E py_float64 fs gap audio_files idx cursor ≠ [] → audio_files ≠ [].
Proof. by destruct audio_files. Qed.



Lemma schedule64_length (E : Env) (py_float64 : string → option spec_float)
    (fs : gmap string string) (gap : spec_float) (audio_files : list audio_info) :
  ∀ idx cursor,
    length (schedule64 E py_float64 fs gap audio_files idx cursor) =
    length (existing_clips fs audio_files).
Proof.
  induction audio_files as [|a rest IH]; intros idx cursor; [done|].
  cbn [schedule64]. rewrite existing_clips_cons.
  destruct (file_exists fs (audio_path_of a)) eqn:Hex.
  - cbn. by rewrite IH.
  - apply IH.
Qed.

Lemma schedule64_app (E : Env) (py_float64 : string → option spec_float)
    (w : World) (l1 l2 : list audio_info) :
  ∀ (ds : list spec_float) idx cursor,
    Forall2 (λ b d, get_media_duration64 E py_float64 (audio_path_of b) w = (Ok d, w))
            (existing_clips (files w) l1) ds →
    schedule64 E py_float64 (files w) Binary64.gap (l1 ++ l2) idx cursor =
      schedule64 E py_float64 (files w) Binary64.gap l1 idx cursor ++
      schedule64 E py_float64 (files w) Binary64.gap l2 (idx + length l1)
                 (foldl Binary64.advance cursor ds).
Proof.
  induction l1 as [|a l1 IH]; intros ds idx cursor Hds.
  - cbn in Hds. apply Forall2_nil_inv_l in Hds as ->. cbn.
    by rewrite Nat.add_0_r.
  - cbn [app schedule64 length]. rewrite existing_clips_cons in Hds.
    replace (idx + S (length l1)) with (S idx + length l1) by lia.
    destruct (file_exists (files w) (audio_path_of a)) eqn:Hex.
    + apply Forall2_cons_inv_l in Hds as (d & ds' & Hd & Hds & ->).
      rewrite get_media_duration64_probed in Hd. injection Hd as <-.
      cbn [foldl app]. f_equal. by apply IH.
    + by apply IH.
Qed.

(** X1.  When the loop returns, the command supplies exactly the clips
    that exist, in list order, after the inputs it had; the loop has made
    one filter part per supplied clip and has left the file system and the
    encoder log alone.  A missing clip is skipped: the loop goes on with the
    same inputs, parts and cursor. *)
Theorem loop_supplies_existing_clips (E : Env)
    (py_float64 : string → option spec_float) (gap : spec_float) (w : World)
    (audio_files : list audio_info) (idx : nat) (st : loop_state64) :
  (∀ st' w',
      compose_loop64 E py_float64 gap audio_files idx st w = (Ok st', w') →
      w' = w ∧
      audio_inputs64 st' =
        audio_inputs64 st ++
        flat_map (λ a, ["-i"; audio_path_of a])
                 (existing_clips (files w) audio_files) ∧
      length (filter_parts64 st') =
        length (filter_parts64 st) + length (existing_clips (files w) audio_files)) ∧
  (∀ a rest, audio_files = a :: rest →
             file_exists (files w) (audio_path_of a) = false →
             compose_loop64 E py_float64 gap audio_files idx st w =
               compose_loop64 E py_float64 gap rest (S idx) st w).
Proof.
  split.
  - intros st' w' Hrun.
    pose proof (compose_loop64_only_returns _ _ _ _ _ _ _ _ _ Hrun) as Hsome.
    destruct (compose_loop64_returns E py_float64 gap audio_files idx st w Hsome)
      as [t_end Hret].
    rewrite Hret in Hrun. injection Hrun as <- <-. split; [done|].
    cbn [audio_inputs64 filter_parts64]. split; [done|].
    by rewrite length_app, length_map, schedule64_length.
  - intros a rest -> Ha. cbn [compose_loop64]. unfold bind, path_exists.
    by rewrite Ha.
Qed.

Lemma loop_supplies_existing_clips_witness :
  ∃ st',
    compose_loop64 env_ok demo_float64 Binary64.gap
      [clip "gone.mp3" 1; clip "b.mp3" 2; clip "lost.mp3" 3]
      0 (init_state64 "v.mp4") demo_world = (Ok st', demo_world) ∧
    audio_inputs64 st' = ["-i"; "v.mp4"; "-i"; "b.mp3"] ∧
    length (filter_parts64 st') = 1 ∧
    compose_loop64 env_ok demo_float64 Binary64.gap
      [clip "gone.mp3" 1; clip "b.mp3" 2; clip "lost.mp3" 3]
      0 (init_state64 "v.mp4") demo_world =
    compose_loop64 env_ok demo_float64 Binary64.gap
      [clip "b.mp3" 2; clip "lost.mp3" 3] 1 (init_state64 "v.mp4") demo_world.
Proof.
  destruct (loop_supplies_existing_clips env_ok demo_float64 Binary64.gap demo_world
              [clip "gone.mp3" 1; clip "b.mp3" 2; clip "lost.mp3" 3]
              0 (init_state64 "v.mp4")) as [Hret Hskip].
  eexists. split; [vm_compute; reflexivity|].
  edestruct Hret as (_ & Hin & Hlen); [vm_compute; reflexivity|].
  split; [exact Hin|]. split; [exact Hlen|].
  exact (Hskip _ _ eq_refl eq_refl).
Defined.

(** X2.  Anatomy of one filter part.  Take the clip at list position
    [length l1], and let [ds] be the probed durations of the clips before it
    that exist.  If the clip exists and the loop returns, the clip's part is
    the one of rank [length ds]; it reads input [length l1 + 1] and writes
    label [a(length l1)], numbered by list position and not by rank, and its
    delay is the millisecond value of the cursor that starts at the double
    0.2 and is advanced, in binary64, by duration + 0.3 for each existing
    clip before it: missing clips take no time. *)
Theorem clip_part_position_and_offset (E : Env)
    (py_float64 : string → option spec_float) (w : World) (video_path : string)
    (l1 : list audio_info) (a : audio_info) (l2 : list audio_info)
    (ds : list spec_float) (st : loop_state64) (w' : World) :
  Forall2 (λ b d, get_media_duration64 E py_float64 (audio_path_of b) w = (Ok d, w))
          (existing_clips (files w) l1) ds →
  file_exists (files w) (audio_path_of a) = true →
  compose_loop64 E py_float64 Binary64.gap (l1 ++ a :: l2) 0
                 (init_state64 video_path) w = (Ok st, w') →
  ∃ ms,
    Binary64.delay_ms (foldl Binary64.advance Binary64.lead_in ds) = Some ms ∧
    filter_parts64 st !! length ds =
      Some (delay_part64 (length l1 + 1) ms ms (length l1)).
Proof.
  intros Hds Ha Hrun.
  pose proof (compose_loop64_only_returns _ _ _ _ _ _ _ _ _ Hrun) as Hsome.
  destruct (compose_loop64_returns E py_float64 Binary64.gap (l1 ++ a :: l2) 0
              (init_state64 video_path) w Hsome) as [t_end Hret].
  rewrite Hret in Hrun. injection Hrun as <- <-.
  change (current_time64 (init_state64 video_path)) with Binary64.lead_in in *.
  rewrite (schedule64_app E py_float64 w l1 (a :: l2) ds 0 Binary64.lead_in Hds)
    in Hsome |- *.
  cbn [schedule64] in Hsome |- *. rewrite Ha in Hsome |- *.
  apply Forall_app in Hsome as [_ Hsome].
  apply Forall_cons in Hsome as [[ms Hms] _]. cbn [snd] in Hms.
  exists ms. split; [exact Hms|].
  cbn [filter_parts64 init_state64 app].
  assert (length (schedule64 E py_float64 (files w) Binary64.gap l1 0
                             Binary64.lead_in) = length ds) as Hlen.
  { rewrite schedule64_length. by eapply Forall2_length. }
  rewrite map_app. rewrite lookup_app_r by (rewrite length_map; lia).
  rewrite length_map, Hlen, Nat.sub_diag. cbn [map lookup list_lookup fst snd].
  cbv zeta. by rewrite Hms.
Qed.

Lemma clip_part_position_and_offset_witness :
  ∃ st ms,
    compose_loop64 env_ok demo_float64 Binary64.gap
      ([clip "a.mp3" 1; clip "gone.mp3" 2] ++ clip "b.mp3" 3 :: []) 0
      (init_state64 "v.mp4") demo_world = (Ok st, demo_world) ∧
    Binary64.delay_ms (foldl Binary64.advance Binary64.lead_in [Binary64.of_Z 2])
      = Some ms ∧
    filter_parts64 st !! 1 = Some (delay_part64 3 ms ms 2).
Proof.
  eexists.
  edestruct (clip_part_position_and_offset env_ok demo_float64 demo_world "v.mp4"
               [clip "a.mp3" 1; clip "gone.mp3" 2] (clip "b.mp3" 3) []
               [Binary64.of_Z 2]) as (ms & Hms & Hpart).
  - repeat constructor.
  - reflexivity.
  - vm_compute. reflexivity.
  - exists ms. split; [vm_compute; reflexivity|]. split; [exact Hms|exact Hpart].
Defined.



Lemma compose_scene_commands (E : Env) (scene_id : Z)
    (video_path : string) (audio_files : list audio_info) (w : World) :
  ∃ cmds,
    encodes (compose_scene E scene_id video_path audio_files w).2 =
      encodes w ++ cmds ∧
    (length cmds ≤ 2)%nat ∧
    Forall (λ c, take 4 c = ["ffmpeg"; "-y"; "-i"; video_path] ∧
                 List.last c "" = composed_path scene_id) cmds ∧
    (cmds = [] ↔ file_exists (files w) video_path = false).
Proof.
  destruct (file_exists (files w) video_path) eqn:Hv.
  - destruct (probes_exist E w (existing_clips (files w) audio_files)) as [ds Hds].
    destruct (compose_loop_existing E 0.3%Q w audio_files ds 0
                (init_state video_path) Hds) as (st & new & Hst & _ & _ & Hin & _).
    rewrite (compose_scene_after_loop E scene_id video_path audio_files w st Hv Hst).
    assert (take 4 (mix_cmd (audio_inputs st) (filter_parts st)
                            (composed_path scene_id)) =
              ["ffmpeg"; "-y"; "-i"; video_path]) as Htake.
    { rewrite Hin. reflexivity. }
    destruct (filter_parts st) as [|part parts]; unfold bind;
      rewrite run_ffmpeg_run; [|case_bool_decide; [rewrite run_ffmpeg_run|]];
      cbn [ret snd encodes].
    + exists [passthrough_cmd video_path (composed_path scene_id)].
      split; [done|]. split; [cbn; lia|]. split; [|done].
      by repeat constructor.
    + exists [mix_cmd (audio_inputs st) (part :: parts) (composed_path scene_id);
              passthrough_cmd video_path (composed_path scene_id)].
      split; [by rewrite <- app_assoc|]. split; [cbn; lia|]. split; [|done].
      repeat constructor; [done|]. apply last_mix_cmd.
    + exists [mix_cmd (audio_inputs st) (part :: parts) (composed_path scene_id)].
      split; [done|]. split; [cbn; lia|]. split; [|done].
      repeat constructor; [done|]. apply last_mix_cmd.
  - exists []. unfold compose_scene, bind, path_exists. rewrite Hv. cbn.
    rewrite app_nil_r. repeat split; try done. lia.
Qed.








(** * Further properties of the merger and of the run *)

Lemma valid_videos_idempotent (fs : gmap string string)
    (composed_videos : list (option string)) :
  valid_videos fs (Some <$> valid_videos fs composed_videos) =
    valid_videos fs composed_videos.
Proof.
  induction composed_videos as [|[p|] rest IH]; [done| |done].
  cbn [valid_videos].
  destruct (truthy (Some p) && file_exists fs p) eqn:Hp; [|done].
  cbn [fmap list_fmap valid_videos]. by rewrite Hp, IH.
Qed.

(** X6.  [merge_scenes] sees its input only through the entries it keeps:
    called on the kept entries alone it does the same thing, and filtering
    twice keeps the same entries as filtering once. *)
Theorem merge_scenes_depends_on_valid_entries (E : Env)
    (composed_videos : list (option string)) (w : World) :
  valid_videos (files w) (Some <$> valid_videos (files w) composed_videos) =
    valid_videos (files w) composed_videos ∧
  merge_scenes E (Some <$> valid_videos (files w) composed_videos) w =
    merge_scenes E composed_videos w.
Proof.
  split; [apply valid_videos_idempotent|].
  by rewrite !merge_scenes_run, valid_videos_idempotent.
Qed.

Lemma compose_all_missing (E : Env) (audio_by_scene : gmap Z (list audio_info))
    (video_paths : list string) (w : World) :
  Forall (λ v, file_exists (files w) v = false) video_paths →
  ∀ idx, compose_all E audio_by_scene video_paths idx w =
           (Ok (replicate (length video_paths) None), w).
Proof.
  induction 1 as [|v rest Hv _ IH]; intros idx; [done|].
  cbn [compose_all]. unfold bind at 1.
  destruct (compose_scene_spec E (Z.of_nat idx + 1) v
              (default [] (audio_by_scene !! (Z.of_nat idx + 1)%Z)) w)
    as (w1 & -> & Hw & _).
  rewrite (Hw Hv), Hv. unfold bind. by rewrite IH.
Qed.

Lemma valid_videos_nones (fs : gmap string string) (n : nat) :
  valid_videos fs (replicate n None) = [].
Proof. induction n; [done|]. by cbn. Qed.

(** X7.  When no video of the list exists, and in particular when the list
    is empty, [main] ends in [sys.exit(1)] without running the encoder and
    without writing any file: the world is unchanged. *)
Theorem main_without_videos_fails (E : Env) (video_paths : list string)
    (audio_data : list (Z * list audio_info)) (w : World) :
  Forall (λ v, file_exists (files w) v = false) video_paths →
  main E video_paths audio_data w = (Raise (SystemExit 1), w) ∧
  exit_status (main E video_paths audio_data w).1 = 1%Z.
Proof.
  intros Hmissing.
  assert (main E video_paths audio_data w = (Raise (SystemExit 1), w)) as Hmain.
  { unfold main. unfold bind at 1.
    rewrite (compose_all_missing E _ video_paths w Hmissing).
    unfold bind at 1. rewrite merge_scenes_run, valid_videos_nones. done. }
  by rewrite Hmain.
Qed.

Lemma main_without_videos_fails_witness :
  main env_ok [] [(1%Z, [clip "a.mp3" 1])] demo_world =
    (Raise (SystemExit 1), demo_world) ∧
  main env_ok ["nowhere.mp4"; "gone.mp4"] [(1%Z, [clip "a.mp3" 1])] demo_world =
    (Raise (SystemExit 1), demo_world).
Proof.
  split.
  - apply (main_without_videos_fails env_ok [] [(1%Z, [clip "a.mp3" 1])] demo_world).
    constructor.
  - apply (main_without_videos_fails env_ok ["nowhere.mp4"; "gone.mp4"]
             [(1%Z, [clip "a.mp3" 1])] demo_world).
    repeat constructor.
Defined.

Lemma audio_lookup_snoc (audio_data : list (Z * list audio_info))
    (s : Z * list audio_info) :
  audio_lookup (audio_data ++ [s]) = <[s.1 := s.2]> (audio_lookup audio_data).
Proof. unfold audio_lookup. by rewrite foldl_app. Qed.

(** X8.  The audio lookup built from the loaded list answers, for a scene
    id, with the audio list of the last entry that carries this id, and with
    nothing when no entry does (the scene is then composed without audio). *)
Theorem audio_lookup_last_entry_wins (audio_data : list (Z * list audio_info))
    (k : Z) :
  audio_lookup audio_data !! k =
    last (omap (λ s, if decide (s.1 = k) then Some s.2 else None) audio_data) ∧
  (audio_lookup audio_data !! k = None ↔ k ∉ audio_data.*1).
Proof.
  induction audio_data as [|s l [IH1 IH2]] using rev_ind.
  - split; [done|]. split; [intros _; apply not_elem_of_nil|done].
  - rewrite audio_lookup_snoc, omap_app, fmap_app. cbn [omap list_omap fmap list_fmap].
    destruct (decide (s.1 = k)) as [<-|Hne].
    + rewrite lookup_insert_eq, last_snoc. split; [done|].
      split; [done|]. intros Hk. exfalso. apply Hk.
      apply elem_of_app. right. apply list_elem_of_singleton. done.
    + rewrite lookup_insert_ne by done. rewrite app_nil_r. split; [done|].
      rewrite IH2, not_elem_of_app, list_elem_of_singleton. clear IH1 IH2.
      split; [intros Hl; split; [done | congruence] | by intros [Hl _]].
Qed.

Lemma compose_all_encodes (E : Env) (audio_by_scene : gmap Z (list audio_info))
    (video_paths : list string) :
  ∀ idx w l w',
    compose_all E audio_by_scene video_paths idx w = (Ok l, w') →
    ∃ cmds, encodes w' = encodes w ++ cmds.
Proof.
  induction video_paths as [|v rest IH]; intros idx w l w' Hrun.
  - cbn in Hrun. injection Hrun as _ <-. exists []. by rewrite app_nil_r.
  - cbn [compose_all] in Hrun. unfold bind at 1 in Hrun.
    destruct (compose_scene_commands E (Z.of_nat idx + 1) v
                (default [] (audio_by_scene !! (Z.of_nat idx + 1)%Z)) w)
      as (cmds1 & Henc1 & _).
    destruct (compose_scene E (Z.of_nat idx + 1) v
                (default [] (audio_by_scene !! (Z.of_nat idx + 1)%Z)) w)
      as [[c|e] w1]; [|done].
    unfold bind at 1 in Hrun.
    destruct (compose_all E audio_by_scene rest (S idx) w1) as [[l1|e] w2] eqn:Hrest;
      [|done].
    cbn in Hrun. injection Hrun as _ <-.
    destruct (IH _ _ _ _ Hrest) as [cmds2 Henc2].
    exists (cmds1 ++ cmds2). cbn in Henc1. by rewrite Henc2, Henc1, app_assoc.
Qed.

(** X9.  When [main] ends normally, the sidecar file holds the path of the
    final reel, the manifest file exists, and the last encoder run of the
    whole run is the concatenation to the final reel. *)
Theorem main_normal_end_leaves_final_reel (E : Env) (video_paths : list string)
    (audio_data : list (Z * list audio_info)) (w w' : World) :
  main E video_paths audio_data w = (Ok tt, w') →
  files w' !! "outputs/final_reel_path.txt" = Some "outputs/final/final_reel.mp4" ∧
  is_Some (files w' !! "outputs/final/concat_list.txt") ∧
  ∃ cmds, encodes w' =
            encodes w ++ cmds ++
            [merge_cmd "outputs/final/concat_list.txt"
                       "outputs/final/final_reel.mp4"].
Proof.
  destruct (compose_all_run E (audio_lookup audio_data) video_paths 0 w)
    as (l & w1 & Hrun & _).
  destruct (compose_all_encodes E _ _ _ _ _ _ Hrun) as [cmds Hcmds].
  assert (main E video_paths audio_data w =
            (final_reel <- merge_scenes E l ;;
             match final_reel with
             | Some p => if truthy final_reel then write_text sidecar_path p
                         else sys_exit 1
             | None => sys_exit 1
             end) w1) as ->.
  { unfold main. unfold bind at 1. by rewrite Hrun. }
  unfold bind. rewrite merge_scenes_run.
  destruct (valid_videos (files w1) l) as [|v vs]; [done|].
  cbv zeta. case_bool_decide; [done|].
  cbn [truthy]. rewrite bool_decide_eq_true_2 by done.
  unfold write_text. cbn [fst snd files encodes].
  intros [= <-]. cbn [files encodes]. split; [|split].
  - change "outputs/final_reel_path.txt" with sidecar_path.
    by rewrite lookup_insert_eq.
  - change "outputs/final/concat_list.txt" with concat_list_path.
    rewrite lookup_insert_ne by done.
    rewrite lookup_partial_alter_ne by done.
    rewrite lookup_insert_eq. by eexists.
  - exists cmds. by rewrite Hcmds, <- app_assoc.
Qed.

Lemma main_normal_end_leaves_final_reel_witness :
  ∃ w',
    main env_ok ["v.mp4"] [(1%Z, [clip "a.mp3" 1])] demo_world = (Ok tt, w') ∧
    files w' !! "outputs/final_reel_path.txt" = Some "outputs/final/final_reel.mp4" ∧
    is_Some (files w' !! "outputs/final/concat_list.txt") ∧
    ∃ cmds,
      encodes w' =
        encodes demo_world ++ cmds ++
        [merge_cmd "outputs/final/concat_list.txt" "outputs/final/final_reel.mp4"].
Proof.
  eexists. split; [vm_compute; reflexivity|].
  apply (main_normal_end_leaves_final_reel env_ok ["v.mp4"]
           [(1%Z, [clip "a.mp3" 1])] demo_world).
  vm_compute. reflexivity.
Defined.

(** * Speech generation ([scripts/generate_tts.py]) *)

Lemma generate_audio_run (T : TtsEnv) (text character output_path : string)
    (w : World) :
  ∃ voice rate pitch,
    generate_audio T text character output_path w =
      (match (tts_save T text voice rate pitch output_path (files w)).1 with
       | Ok _ => Ok output_path
       | Raise e => Raise e
       end,
       {| files := partial_alter
                     (λ _, (tts_save T text voice rate pitch output_path (files w)).2)
                     output_path (files w);
          encodes := encodes w |}).
Proof.
  exists (default "hi-IN-MadhurNeural" (VOICE_MAP !! character)),
         (default "+0%" (default ∅ (VOICE_SETTINGS !! character) !! "rate")),
         (default "+0Hz" (default ∅ (VOICE_SETTINGS !! character) !! "pitch")).
  unfold generate_audio, bind, communicate_save.
  destruct (tts_save T text _ _ _ output_path (files w)) as [[[]|e] out]; reflexivity.
Qed.

Lemma spoken_dialogues_cons (idx : nat) (d : dialogue) (rest : list dialogue) :
  spoken_dialogues idx (d :: rest) =
    if decide (default "" (dlg_text d) ≠ "")
    then (idx, d) :: spoken_dialogues (S idx) rest
    else spoken_dialogues (S idx) rest.
Proof.
  unfold spoken_dialogues. cbn [imap]. rewrite filter_cons. cbn [snd].
  rewrite Nat.add_0_r.
  assert (imap ((λ i d0, (idx + i, d0)) ∘ S) rest =
          imap (λ i d0, (S idx + i, d0)) rest) as ->; [|done].
  apply imap_ext. intros i x _. cbn. f_equal. lia.
Qed.

Lemma spoken_dialogues_sorted (dialogues : list dialogue) :
  ∀ idx,
    StronglySorted (λ p q : nat * dialogue, p.1 < q.1) (spoken_dialogues idx dialogues) ∧
    Forall (λ p, (idx ≤ p.1)%nat ∧ dialogues !! (p.1 - idx) = Some p.2 ∧
                 default "" (dlg_text p.2) ≠ "")
           (spoken_dialogues idx dialogues).
Proof.
  induction dialogues as [|d rest IH]; intros idx.
  - split; constructor.
  - rewrite spoken_dialogues_cons. destruct (IH (S idx)) as [Hs Hf].
    assert (Forall (λ p, (idx ≤ p.1)%nat ∧ (d :: rest) !! (p.1 - idx) = Some p.2 ∧
                         default "" (dlg_text p.2) ≠ "")
                   (spoken_dialogues (S idx) rest)) as Hf'.
    { eapply Forall_impl; [exact Hf|]. intros [i x] (Hi & Hx & Ht). cbn in *.
      split; [lia|]. split; [|done].
      replace (i - idx) with (S (i - S idx)) by lia. done. }
    case_decide; [|done]. split.
    + constructor; [done|]. eapply Forall_impl; [exact Hf|].
      intros [i x] (Hi & _). cbn in *. lia.
    + constructor; [|done]. cbn. by rewrite Nat.sub_diag.
Qed.

Lemma sublist_Forall {A} (P : A → Prop) (k l : list A) :
  sublist k l → Forall P l → Forall P k.
Proof.
  induction 1 as [|x k l _ IH|x k l _ IH]; intros Hl; [done| |].
  - apply Forall_cons in Hl as [? ?]. constructor; auto.
  - apply Forall_cons in Hl as [? ?]. auto.
Qed.

Lemma sublist_StronglySorted {A} (R : relation A) (k l : list A) :
  sublist k l → StronglySorted R l → StronglySorted R k.
Proof.
  induction 1 as [|x k l Hkl IH|x k l _ IH]; intros Hl; [done| |].
  - apply StronglySorted_inv in Hl as [Hs Hf]. constructor; [auto|].
    by eapply sublist_Forall.
  - apply StronglySorted_inv in Hl as [Hs _]. auto.
Qed.

(** The inner loop of [process_script], for any accumulator and index. *)
Lemma dialogue_loop_spec (T : TtsEnv) (sid : Z) (dialogues : list dialogue) :
  ∀ idx acc w r w',
    dialogue_loop T sid dialogues idx acc w = (r, w') →
    encodes w' = encodes w ∧
    match r with
    | Ok recs =>
        ∃ kept, sublist kept (spoken_dialogues idx dialogues) ∧
                recs = acc ++ map (record_of sid) kept
    | Raise e =>
        is_Exception e = false ∧
        ∃ text voice rate pitch output_path fs,
          (tts_save T text voice rate pitch output_path fs).1 = Raise e
    end.
Proof.
  induction dialogues as [|d rest IH]; intros idx acc w r w' Hrun.
  - cbn in Hrun. injection Hrun as <- <-. split; [done|].
    exists []. by rewrite app_nil_r.
  - cbn [dialogue_loop] in Hrun. rewrite spoken_dialogues_cons.
    case_bool_decide as Htext.
    + apply IH in Hrun as [Henc Hr]. split; [done|].
      destruct r as [recs|e]; [|done].
      destruct Hr as (kept & Hsub & ->). exists kept. split; [|done].
      by rewrite decide_False by (by intros ?).
    + rewrite decide_True by done.
      unfold bind at 1 in Hrun. unfold try_except_Exception in Hrun.
      unfold bind at 1 in Hrun.
      destruct (generate_audio_run T (default "" (dlg_text d))
                  (default "narrator" (dlg_character d))
                  (audio_output_path sid (default "narrator" (dlg_character d)) idx)
                  w) as (voice & rate & pitch & Hgen).
      rewrite Hgen in Hrun. clear Hgen.
      destruct (tts_save T (default "" (dlg_text d)) voice rate pitch
                  (audio_output_path sid (default "narrator" (dlg_character d)) idx)
                  (files w)) as [[[]|e] out] eqn:Htts; cbn [fst snd] in Hrun.
      * cbn [ret] in Hrun. apply IH in Hrun as [Henc Hr]. split; [done|].
        destruct r as [recs|e]; [|done].
        destruct Hr as (kept & Hsub & ->). exists ((idx, d) :: kept).
        split; [by constructor|]. cbn [map]. by rewrite <- app_assoc.
      * destruct (is_Exception e) eqn:He.
        -- cbn [ret] in Hrun. apply IH in Hrun as [Henc Hr]. split; [done|].
           destruct r as [recs|e']; [|done].
           destruct Hr as (kept & Hsub & ->). exists kept.
           split; [by constructor|done].
        -- injection Hrun as <- <-. split; [done|]. split; [done|].
           eexists _, _, _, _, _, _. by rewrite Htts.
Qed.

Lemma StronglySorted_lookup_lt {A} (R : relation A) (l : list A) :
  StronglySorted R l →
  ∀ i j x y, i < j → l !! i = Some x → l !! j = Some y → R x y.
Proof.
  induction 1 as [|a l _ IH Hall]; intros i j x y Hij Hi Hj; [done|].
  destruct j as [|j]; [lia|]. cbn in Hj.
  destruct i as [|i]; cbn in Hi.
  - injection Hi as <-. eapply Forall_forall; [exact Hall|].
    by eapply list_elem_of_lookup_2.
  - eapply (IH i j); [lia|done..].
Qed.

(** X10.  The records [process_script] lists for one scene follow the
    dialogue order: their [order] fields strictly increase along the list.
    Each record stems from the dialogue at index [order - 1]: that dialogue
    has a non-empty text, which the record carries together with the
    character (or ["narrator"]), the scene id and the output path built from
    scene id, character and order.  The loop runs no encoder. *)
Theorem tts_records_follow_dialogue_order (T : TtsEnv) (sid : Z)
    (dialogues : list dialogue) (w : World) (recs : list audio_info) (w' : World) :
  dialogue_loop T sid dialogues 0 [] w = (Ok recs, w') →
  (∀ i j r r', i < j → recs !! i = Some r → recs !! j = Some r' →
               (order r < order r')%Z) ∧
  (∀ r, r ∈ recs →
        ∃ idx d,
          order r = (Z.of_nat idx + 1)%Z ∧
          dialogues !! idx = Some d ∧
          text r = default "" (dlg_text d) ∧ text r ≠ "" ∧
          character r = default "narrator" (dlg_character d) ∧
          scene_id r = sid ∧
          path r = Some (audio_output_path sid (character r) idx)) ∧
  encodes w' = encodes w.
Proof.
  intros Hrun. apply dialogue_loop_spec in Hrun as [Henc (kept & Hsub & ->)].
  destruct (spoken_dialogues_sorted dialogues 0) as [Hsorted Hall].
  cbn [app]. split; [|split; [|done]].
  - apply StronglySorted_lookup_lt.
    apply (StronglySorted_fmap _ (λ p q : nat * dialogue, p.1 < q.1)).
    + intros p q Hpq. cbn. lia.
    + by eapply sublist_StronglySorted.
  - intros r Hr. apply list_elem_of_fmap in Hr as ([idx d] & -> & Hp).
    pose proof (sublist_Forall _ _ _ Hsub Hall) as Hkept.
    rewrite Forall_forall in Hkept. destruct (Hkept _ Hp) as (_ & Hd & Ht).
    cbn in Hd, Ht. rewrite Nat.sub_0_r in Hd. by exists idx, d.
Qed.

Lemma tts_records_follow_dialogue_order_witness :
  ∃ recs w',
    dialogue_loop tts_ok 1
      [line "maa" "first"; line "hero" ""; line "hero" "third"] 0 []
      empty_world = (Ok recs, w') ∧
    map order recs = [1%Z; 3%Z] ∧
    (∀ i j r r', i < j → recs !! i = Some r → recs !! j = Some r' →
                 (order r < order r')%Z).
Proof.
  eexists _, _. split; [vm_compute; reflexivity|]. split; [reflexivity|].
  eapply (tts_records_follow_dialogue_order tts_ok 1
            [line "maa" "first"; line "hero" ""; line "hero" "third"]
            empty_world).
  vm_compute. reflexivity.
Defined.

Lemma dialogue_loop_complete (T : TtsEnv) (sid : Z) (dialogues : list dialogue) :
  always_speaks T →
  ∀ idx acc w,
    Forall (λ r, is_Some (files w !! audio_path_of r)) acc →
    ∃ w',
      dialogue_loop T sid dialogues idx acc w =
        (Ok (acc ++ map (record_of sid) (spoken_dialogues idx dialogues)), w') ∧
      Forall (λ r, is_Some (files w' !! audio_path_of r))
             (acc ++ map (record_of sid) (spoken_dialogues idx dialogues)).
Proof.
  intros Hspeaks. induction dialogues as [|d rest IH]; intros idx acc w Hacc.
  - exists w. cbn. by rewrite app_nil_r.
  - cbn [dialogue_loop]. rewrite spoken_dialogues_cons.
    case_bool_decide as Htext.
    + rewrite decide_False by (by intros ?). by apply IH.
    + rewrite decide_True by done.
      unfold bind at 1. unfold try_except_Exception. unfold bind at 1.
      destruct (generate_audio_run T (default "" (dlg_text d))
                  (default "narrator" (dlg_character d))
                  (audio_output_path sid (default "narrator" (dlg_character d)) idx)
                  w) as (voice & rate & pitch & ->).
      destruct (Hspeaks (default "" (dlg_text d)) voice rate pitch
                  (audio_output_path sid (default "narrator" (dlg_character d)) idx)
                  (files w)) as [-> [content Hcontent]].
      rewrite Hcontent. cbn [ret].
      edestruct (IH (S idx)) as (w' & -> & Hfiles); last first.
      * exists w'. cbn [map]. rewrite <- app_assoc in Hfiles.
        rewrite <- app_assoc. by split.
      * cbn [files]. apply Forall_app. split.
        -- eapply Forall_impl; [exact Hacc|]. intros r [c Hr].
           destruct (decide (audio_path_of r =
                       audio_output_path sid (default "narrator" (dlg_character d)) idx))
             as [->|Hne].
           ++ rewrite lookup_partial_alter_eq. by eexists.
           ++ rewrite lookup_partial_alter_ne by done. by eexists.
        -- repeat constructor. cbn. rewrite lookup_partial_alter_eq. by eexists.
Qed.

Lemma spoken_dialogues_length (dialogues : list dialogue) :
  ∀ idx, length (spoken_dialogues idx dialogues) =
         length (filter (λ d, default "" (dlg_text d) ≠ "") dialogues).
Proof.
  induction dialogues as [|d rest IH]; intros idx; [done|].
  rewrite spoken_dialogues_cons, filter_cons.
  case_decide; cbn; by rewrite IH.
Qed.

(** X11.  When the speech service always completes and leaves a file, the
    records of a scene are exactly those of its dialogues with a non-empty
    text, in order, and the file of every record exists when the loop ends
    (so the compositor will find every listed clip). *)
Theorem tts_success_lists_every_spoken_dialogue (T : TtsEnv) (sid : Z)
    (dialogues : list dialogue) (w : World) :
  always_speaks T →
  ∃ w',
    dialogue_loop T sid dialogues 0 [] w =
      (Ok (map (record_of sid) (spoken_dialogues 0 dialogues)), w') ∧
    length (map (record_of sid) (spoken_dialogues 0 dialogues)) =
      length (filter (λ d, default "" (dlg_text d) ≠ "") dialogues) ∧
    Forall (λ r, file_exists (files w') (audio_path_of r) = true)
           (map (record_of sid) (spoken_dialogues 0 dialogues)).
Proof.
  intros Hspeaks.
  destruct (dialogue_loop_complete T sid dialogues Hspeaks 0 [] w) as (w' & Hrun & Hf);
    [constructor|].
  exists w'. split; [exact Hrun|]. split.
  - rewrite length_map. apply spoken_dialogues_length.
  - cbn [app] in Hf. eapply Forall_impl; [exact Hf|].
    intros r Hr. by apply bool_decide_eq_true_2.
Qed.

Lemma tts_ok_always_speaks : always_speaks tts_ok.
Proof. intros text voice rate pitch output_path fs. split; [done|by eexists]. Qed.

Lemma tts_success_lists_every_spoken_dialogue_witness :
  ∃ w',
    dialogue_loop tts_ok 1
      [line "maa" "first"; line "hero" ""; line "hero" "third"] 0 []
      empty_world =
      (Ok [record_of 1 (0, line "maa" "first"); record_of 1 (2, line "hero" "third")],
       w') ∧
    file_exists (files w') "outputs/audio/scene1_maa_1.mp3" = true ∧
    file_exists (files w') "outputs/audio/scene1_hero_3.mp3" = true.
Proof.
  destruct (tts_success_lists_every_spoken_dialogue tts_ok 1
              [line "maa" "first"; line "hero" ""; line "hero" "third"]
              empty_world tts_ok_always_speaks) as (w' & Hrun & _ & Hfiles).
  exists w'. split; [exact Hrun|].
  apply Forall_cons in Hfiles as [H1 Hfiles].
  apply Forall_cons in Hfiles as [H2 _].
  split; [exact H1 | exact H2].
Defined.

(** The outer loop of [process_script], for any accumulator. *)
Lemma scene_loop_spec (T : TtsEnv) (scenes : list scene) :
  ∀ acc w r w',
    scene_loop T scenes acc w = (r, w') →
    encodes w' = encodes w ∧
    match r with
    | Ok l =>
        ∃ entries,
          l = acc ++ entries ∧ length entries = length scenes ∧
          ∀ i s, scenes !! i = Some s →
                 ∃ kept,
                   sublist kept (spoken_dialogues 0 (default [] (scn_dialogues s))) ∧
                   entries !! i =
                     Some (default (Z.of_nat (length acc + i) + 1)%Z (scn_scene_id s),
                           map (record_of
                                  (default (Z.of_nat (length acc + i) + 1)%Z
                                           (scn_scene_id s))) kept)
    | Raise e =>
        is_Exception e = false ∧
        ∃ text voice rate pitch output_path fs,
          (tts_save T text voice rate pitch output_path fs).1 = Raise e
    end.
Proof.
  induction scenes as [|s rest IH]; intros acc w r w' Hrun.
  - cbn in Hrun. injection Hrun as <- <-. split; [done|].
    exists []. rewrite app_nil_r. by repeat split.
  - cbn [scene_loop] in Hrun. unfold bind at 1 in Hrun.
    destruct (dialogue_loop T (default (Z.of_nat (length acc) + 1)%Z (scn_scene_id s))
                (default [] (scn_dialogues s)) 0 [] w) as [r1 w1] eqn:Hd.
    apply dialogue_loop_spec in Hd as [Henc1 Hr1].
    destruct r1 as [recs|e].
    + destruct Hr1 as (kept & Hsub & ->). cbn [app] in Hrun.
      apply IH in Hrun as [Henc Hr]. split; [congruence|].
      destruct r as [l|e]; [|done].
      destruct Hr as (entries & -> & Hlen & Hent).
      eexists (_ :: entries). split; [by rewrite <- app_assoc|].
      split; [cbn; by rewrite Hlen|].
      intros [|i] s' Hs'; cbn in Hs'.
      * injection Hs' as <-. exists kept. rewrite Nat.add_0_r. by split.
      * destruct (Hent i s' Hs') as (kept' & Hsub' & Hi).
        exists kept'. split; [done|]. cbn [lookup list_lookup].
        rewrite length_app in Hi. cbn [length] in Hi.
        by replace (length acc + S i) with (length acc + 1 + i) by lia.
    + injection Hrun as <- <-. by split.
Qed.

(** X12.  [process_script] returns one entry per scene, in scene order.
    The entry of scene i (from 0) carries the scene's own id, or i+1 when
    the scene has none, and its records are those of a subsequence of the
    scene's dialogues with a non-empty text.  Without a scene list the
    result is empty.  No encoder is run. *)
Theorem process_script_one_entry_per_scene (T : TtsEnv) (scenes : list scene)
    (w : World) (l : list (Z * list audio_info)) (w' : World) :
  process_script T (Some scenes) w = (Ok l, w') →
  length l = length scenes ∧
  (∀ i s, scenes !! i = Some s →
          ∃ kept,
            sublist kept (spoken_dialogues 0 (default [] (scn_dialogues s))) ∧
            l !! i =
              Some (default (Z.of_nat i + 1)%Z (scn_scene_id s),
                    map (record_of (default (Z.of_nat i + 1)%Z (scn_scene_id s)))
                        kept)) ∧
  encodes w' = encodes w ∧
  process_script T None w = (Ok [], w).
Proof.
  intros Hrun. unfold process_script in Hrun. cbn [default from_option] in Hrun.
  apply scene_loop_spec in Hrun as [Henc (entries & -> & Hlen & Hent)].
  cbn [app]. split; [done|]. split; [|by split].
  intros i s Hs. exact (Hent i s Hs).
Qed.

Lemma process_script_one_entry_per_scene_witness :
  ∃ l w',
    process_script tts_ok
      (Some [ {| scn_scene_id := None;
                 scn_dialogues := Some [line "maa" "first"; line "hero" ""] |};
              {| scn_scene_id := Some 7%Z; scn_dialogues := None |};
              {| scn_scene_id := None; scn_dialogues := Some [] |} ])
      empty_world = (Ok l, w') ∧
    length l = 3 ∧ l.*1 = [1%Z; 7%Z; 3%Z].
Proof.
  edestruct (process_script_one_entry_per_scene tts_ok
               [ {| scn_scene_id := None;
                    scn_dialogues := Some [line "maa" "first"; line "hero" ""] |};
                 {| scn_scene_id := Some 7%Z; scn_dialogues := None |};
                 {| scn_scene_id := None; scn_dialogues := Some [] |} ]
               empty_world) as (Hlen & _).
  { vm_compute. reflexivity. }
  eexists _, _. split; [vm_compute; reflexivity|]. split; [exact Hlen|reflexivity].
Defined.



Lemma voice_map_unknown (character : string) :
  character ∉ ["maa"; "behen"; "baap"; "hero"; "dost"; "gav_wale"] →
  VOICE_MAP !! character = None ∧ VOICE_SETTINGS !! character = None.
Proof.
  intros Hc. unfold VOICE_MAP, VOICE_SETTINGS. cbn [list_to_map foldr fst snd].
  rewrite !not_elem_of_cons in Hc. destruct Hc as (? & ? & ? & ? & ? & ? & _).
  rewrite !lookup_insert_ne by done. by rewrite !lookup_empty.
Qed.

(** X15.  [generate_audio] makes one call to the speech service and
    returns the output path exactly when that call completes; an error of
    the call is passed on.  The voice is the female one for ["maa"] and
    ["behen"] and the male one for every other character; a character
    outside the six known names is spoken with neutral rate and pitch. *)
Theorem generate_audio_voice_choice (T : TtsEnv) (text character output_path : string)
    (w : World) :
  ∃ voice rate pitch,
    generate_audio T text character output_path w =
      (communicate_save T text voice rate pitch output_path ;;; ret output_path) w ∧
    (voice = "hi-IN-SwaraNeural" ∨ voice = "hi-IN-MadhurNeural") ∧
    (voice = "hi-IN-SwaraNeural" ↔ character = "maa" ∨ character = "behen") ∧
    (character ∉ ["maa"; "behen"; "baap"; "hero"; "dost"; "gav_wale"] →
     rate = "+0%" ∧ pitch = "+0Hz") ∧
    ((generate_audio T text character output_path w).1 = Ok output_path ↔
     (tts_save T text voice rate pitch output_path (files w)).1 = Ok tt).
Proof.
  exists (default "hi-IN-MadhurNeural" (VOICE_MAP !! character)),
         (default "+0%" (default ∅ (VOICE_SETTINGS !! character) !! "rate")),
         (default "+0Hz" (default ∅ (VOICE_SETTINGS !! character) !! "pitch")).
  split; [reflexivity|].
  assert ((generate_audio T text character output_path w).1 = Ok output_path ↔
          (tts_save T text
             (default "hi-IN-MadhurNeural" (VOICE_MAP !! character))
             (default "+0%" (default ∅ (VOICE_SETTINGS !! character) !! "rate"))
             (default "+0Hz" (default ∅ (VOICE_SETTINGS !! character) !! "pitch"))
             output_path (files w)).1 = Ok tt) as Hcall.
  { unfold generate_audio, bind, communicate_save.
    destruct (tts_save T text _ _ _ output_path (files w)) as [[[]|e] out];
      cbn; split; intros; done. }
  revert Hcall.
  assert (character ∈ ["maa"; "behen"; "baap"; "hero"; "dost"; "gav_wale"] ∨
          character ∉ ["maa"; "behen"; "baap"; "hero"; "dost"; "gav_wale"])
    as [Hin|Hout] by (destruct (decide (character ∈
         ["maa"; "behen"; "baap"; "hero"; "dost"; "gav_wale"])); auto).
  - intros Hcall. split; [|split; [|split]].
    + rewrite !elem_of_cons in Hin.
      destruct Hin as [->|[->|[->|[->|[->|[->|Hin]]]]]];
        [by left|by left|by right|by right|by right|by right|by apply elem_of_nil in Hin].
    + rewrite !elem_of_cons in Hin.
      destruct Hin as [->|[->|[->|[->|[->|[->|Hin]]]]]];
        try (by apply elem_of_nil in Hin);
        (split; [intros H; vm_compute in H; try discriminate; auto
                |intros [H|H]; try discriminate; reflexivity]).
    + intros Hout. by destruct Hout.
    + done.
  - destruct (voice_map_unknown character Hout) as [-> ->].
    cbn [default from_option]. rewrite lookup_empty. cbn [default from_option].
    intros Hcall. split; [by right|]. split; [|split; [done|done]].
    split; [discriminate|]. intros [->| ->]; exfalso; apply Hout.
    + apply elem_of_cons. by left.
    + apply elem_of_cons. right. apply elem_of_cons. by left.
Qed.

Lemma generate_audio_voice_choice_witness :
  ∃ voice rate pitch,
    generate_audio tts_ok "line" "narrator" "out.mp3" empty_world =
      (communicate_save tts_ok "line" voice rate pitch "out.mp3" ;;; ret "out.mp3")
        empty_world ∧
    voice = "hi-IN-MadhurNeural" ∧ rate = "+0%" ∧ pitch = "+0Hz".
Proof.
  destruct (generate_audio_voice_choice tts_ok "line" "narrator" "out.mp3" empty_world)
    as (voice & rate & pitch & Heq & Hor & Hiff & Hunknown & _).
  exists voice, rate, pitch. split; [exact Heq|].
  split.
  - destruct Hor as [Hs|Hm]; [|exact Hm].
    apply Hiff in Hs as [Hs|Hs]; discriminate.
  - apply Hunknown. rewrite !not_elem_of_cons. repeat split; try discriminate.
    apply not_elem_of_nil.
Defined.

(** * Video generation ([scripts/generate_videos.py]) *)

Lemma phrase_lookup (table : gmap string string) (fallback key : string) :
  default fallback (table !! key) ∈ fallback :: (map_to_list table).*2.
Proof.
  destruct (table !! key) as [v|] eqn:Hk; cbn.
  - apply elem_of_cons. right. apply list_elem_of_fmap.
    exists (key, v). split; [done|]. by apply elem_of_map_to_list.
  - apply elem_of_cons. by left.
Qed.

(** X16.  For every scene, [build_video_prompt] returns the fixed
    eight-line prompt with one location phrase and one emotion phrase filled
    in, without the blank first line and the indentation of the source text.
    The location phrase is the table entry of the scene's location, with
    ["village_chowk"] taken when the scene has none and ["dusty village road"]
    used for an unknown location; the emotion phrase is the table entry or
    ["neutral expression"].  The prompt never contains "Marvel" or "Hulk". *)
Theorem build_video_prompt_shape (scene : video_scene) :
  ∃ location_phrase emotion_phrase,
    location_phrase =
      default "dusty village road"
              (locations !! default "village_chowk" (vsc_location scene)) ∧
    emotion_phrase =
      default "neutral expression"
              (emotions !! default "neutral" (vsc_emotion scene)) ∧
    location_phrase ∈ location_phrases ∧
    emotion_phrase ∈ emotion_phrases ∧
    build_video_prompt scene = prompt_with location_phrase emotion_phrase ∧
    contains "Marvel" (build_video_prompt scene) = false ∧
    contains "Hulk" (build_video_prompt scene) = false ∧
    contains "marvel" (build_video_prompt scene) = false ∧
    contains "hulk" (build_video_prompt scene) = false.
Proof.
  unfold build_video_prompt.
  pose proof (phrase_lookup locations "dusty village road"
                (default "village_chowk" (vsc_location scene))) as HL.
  pose proof (phrase_lookup emotions "neutral expression"
                (default "neutral" (vsc_emotion scene))) as HM.
  fold location_phrases in HL. fold emotion_phrases in HM.
  set (L := default "dusty village road" _) in *.
  set (M := default "neutral expression" _) in *.
  exists L, M. do 4 (split; [done|]).
  clearbody L M.
  let l := eval vm_compute in location_phrases in
    change location_phrases with l in HL.
  let l := eval vm_compute in emotion_phrases in
    change emotion_phrases with l in HM.
  rewrite !elem_of_cons in HL. rewrite !elem_of_cons in HM.
  destruct HL as [->|[->|[->|[->|[->|[->|HL]]]]]];
    [..|by apply elem_of_nil in HL];
    (destruct HM as [->|[->|[->|[->|[->|[->|HM]]]]]];
       [..|by apply elem_of_nil in HM]);
    repeat split; vm_compute; reflexivity.
Qed.

Lemma video_loop_cons (V : VideoEnv) (scene : video_scene)
    (rest : list video_scene) (video_paths : list string) (w : World) :
  video_loop V (scene :: rest) video_paths w =
    (video_path <-
       video_attempt V (build_video_prompt scene)
         (default (Z.of_nat (length video_paths) + 1)%Z (vsc_scene_id scene)) ;;
     video_loop V rest (video_paths ++ [video_path])) w.
Proof. reflexivity. Qed.

(** [generate_video_api] in closed form. *)
Lemma generate_video_api_run (V : VideoEnv) (prompt : string) (scene_id : Z)
    (w : World) :
  generate_video_api V prompt scene_id w =
    match hf_token V with
    | None | Some "" => (Raise ValueError, w)
    | Some token =>
        match http_post V token prompt with
        | Ok (status, body) =>
            if bool_decide (status = 200%Z)
            then (Ok (scene_video_path scene_id),
                  {| files := <[scene_video_path scene_id := body]> (files w);
                     encodes := encodes w |})
            else (Raise (OtherError "Exception"), w)
        | Raise e => (Raise e, w)
        end
    end.
Proof.
  unfold generate_video_api.
  destruct (hf_token V) as [[|c token]|]; [done| |done].
  unfold bind at 1.
  destruct (http_post V (String c token) prompt) as [[status body]|e]; [|done].
  cbn [fst snd]. case_bool_decide; done.
Qed.

Lemma is_Some_insert_mono (fs : gmap string string) (k v p : string) :
  is_Some (fs !! p) → is_Some (<[k := v]> fs !! p).
Proof.
  intros Hp. apply lookup_insert_is_Some.
  destruct (decide (k = p)); [by left | by right].
Qed.

(** [generate_video_gradio] in closed form. *)
Lemma generate_video_gradio_run (V : VideoEnv) (prompt : string) (scene_id : Z)
    (space_id : string) (w : World) :
  let out := scene_video_path scene_id in
  let put content :=
    {| files := <[out := content]> (files w); encodes := encodes w |} in
  generate_video_gradio V prompt scene_id space_id w =
    match gradio_predict V
            (default (default "" (VIDEO_SPACES !! DEFAULT_SPACE))
                     (VIDEO_SPACES !! space_id)) prompt (files w) with
    | Raise e => (Raise e, w)
    | Ok result =>
        match result with
        | GStr s =>
            match files w !! s with
            | Some content =>
                if bool_decide (s = out)
                then (Raise (OtherError "SameFileError"), w)
                else (Ok out, put content)
            | None =>
                match http_get V result with
                | GetRaised e => (Raise e, w)
                | GetStreamFailed e partial => (Raise e, put partial)
                | GetDone body => (Ok out, put body)
                end
            end
        | GOther =>
            match http_get V result with
            | GetRaised e => (Raise e, w)
            | GetStreamFailed e partial => (Raise e, put partial)
            | GetDone body => (Ok out, put body)
            end
        end
    end.
Proof.
  intros out put. subst out put. unfold scene_video_path.
  set (out := path_join VIDEO_OUTPUT_DIR ("scene_" +:+ pretty scene_id +:+ ".mp4")).
  unfold generate_video_gradio, try_except_Exception.
  unfold bind at 1.
  destruct (gradio_predict V _ prompt (files w)) as [value|e];
    [|by destruct (is_Exception e)].
  fold out. unfold bind at 1.
  assert (∀ (r : result unit) w1,
             (let (r0, w') :=
                (let (r1, w'0) := (r, w1) in
                 match r1 with
                 | Ok _ => ret out w'0
                 | Raise e => (Raise e, w'0)
                 end) in
              match r0 with
              | Ok a => (Ok a, w')
              | Raise e => if is_Exception e then raise e w' else (Raise e, w')
              end) =
             (match r with Ok _ => Ok out | Raise e => Raise e end, w1)) as Hfin.
  { intros [[]|e] w1; cbn; [done|]. by destruct (is_Exception e). }
  destruct value as [s|].
  - unfold path_exists, file_exists.
    destruct (files w !! s) as [content|] eqn:Hs.
    + rewrite bool_decide_eq_true_2 by (by eexists). unfold bind at 1.
      case_bool_decide.
      * unfold raise. apply (Hfin (Raise (OtherError "SameFileError")) w).
      * rewrite Hs. apply (Hfin (Ok tt)).
    + rewrite bool_decide_eq_false_2 by (by intros [? ?]). unfold bind at 1.
      destruct (http_get V (GStr s)) as [e|e partial|body].
      * apply (Hfin (Raise e) w).
      * unfold bind, write_text, raise. apply (Hfin (Raise e)).
      * unfold write_text. apply (Hfin (Ok tt)).
  - unfold ret at 1. unfold bind at 1.
    destruct (http_get V GOther) as [e|e partial|body].
    + apply (Hfin (Raise e) w).
    + unfold bind, write_text, raise. apply (Hfin (Raise e)).
    + unfold write_text. apply (Hfin (Ok tt)).
Qed.

Lemma api_or_placeholder_ok (V : VideoEnv) (prompt : string) (scene_id : Z)
    (w : World) :
  video_errors_ordinary V →
  ∃ video_path w',
    try_except_Exception
      (generate_video_api V prompt scene_id)
      (λ e2, touch (placeholder_video_path scene_id) ;;;
             ret (placeholder_video_path scene_id)) w = (Ok video_path, w') ∧
    (video_path = scene_video_path scene_id ∨
     video_path = placeholder_video_path scene_id) ∧
    is_Some (files w' !! video_path) ∧
    encodes w' = encodes w ∧
    (∀ p, is_Some (files w !! p) → is_Some (files w' !! p)).
Proof.
  intros (_ & _ & _ & Hpost).
  assert (∃ w',
            (touch (placeholder_video_path scene_id) ;;;
             ret (placeholder_video_path scene_id)) w =
              (Ok (placeholder_video_path scene_id), w') ∧
            is_Some (files w' !! placeholder_video_path scene_id) ∧
            encodes w' = encodes w ∧
            (∀ p, is_Some (files w !! p) → is_Some (files w' !! p))) as Htouch.
  { unfold bind, touch, ret. eexists. split; [reflexivity|]. cbn [files encodes].
    destruct (files w !! placeholder_video_path scene_id) eqn:Hp.
    - rewrite Hp. by repeat split.
    - split; [rewrite lookup_insert_eq; by eexists|]. split; [done|].
      intros p. apply is_Some_insert_mono. }
  destruct Htouch as (wt & Htouch & Hex & Henc & Hmono).
  unfold try_except_Exception. rewrite generate_video_api_run.
  destruct (hf_token V) as [[|c token]|].
  - cbn [is_Exception]. exists (placeholder_video_path scene_id), wt. by repeat split; try right.
  - destruct (http_post V (String c token) prompt) as [[status body]|e] eqn:Hp.
    + case_bool_decide.
      * eexists _, _. split; [reflexivity|]. cbn [files encodes].
        split; [by left|]. split; [rewrite lookup_insert_eq; by eexists|].
        split; [done|]. intros p. apply is_Some_insert_mono.
      * cbn [is_Exception]. exists (placeholder_video_path scene_id), wt.
        by repeat split; try right.
    + rewrite (Hpost _ _ _ Hp). exists (placeholder_video_path scene_id), wt.
      by repeat split; try right.
  - cbn [is_Exception]. exists (placeholder_video_path scene_id), wt. by repeat split; try right.
Qed.

Lemma video_attempt_ok (V : VideoEnv) (prompt : string) (scene_id : Z) (w : World) :
  video_errors_ordinary V →
  ∃ video_path w',
    video_attempt V prompt scene_id w = (Ok video_path, w') ∧
    (video_path = scene_video_path scene_id ∨
     video_path = placeholder_video_path scene_id) ∧
    is_Some (files w' !! video_path) ∧
    encodes w' = encodes w ∧
    (∀ p, is_Some (files w !! p) → is_Some (files w' !! p)).
Proof.
  intros Hord. pose proof Hord as (Hpredict & Hget & Hstream & _).
  pose proof (api_or_placeholder_ok V prompt scene_id w Hord) as Hw.
  assert (∀ content,
            ∃ video_path w',
              try_except_Exception
                (generate_video_api V prompt scene_id)
                (λ e2, touch (placeholder_video_path scene_id) ;;;
                       ret (placeholder_video_path scene_id))
                {| files := <[scene_video_path scene_id := content]> (files w);
                   encodes := encodes w |} = (Ok video_path, w') ∧
              (video_path = scene_video_path scene_id ∨
               video_path = placeholder_video_path scene_id) ∧
              is_Some (files w' !! video_path) ∧
              encodes w' = encodes w ∧
              (∀ p, is_Some (files w !! p) → is_Some (files w' !! p))) as Hput.
  { intros content.
    destruct (api_or_placeholder_ok V prompt scene_id
                {| files := <[scene_video_path scene_id := content]> (files w);
                   encodes := encodes w |} Hord)
      as (vp & w' & Hrun & Hvp & Hex & Henc & Hmono).
    exists vp, w'. repeat split; try done.
    intros p Hp. apply Hmono. cbn [files]. by apply is_Some_insert_mono. }
  assert (∀ content,
            ∃ video_path w',
              (Ok (scene_video_path scene_id),
               {| files := <[scene_video_path scene_id := content]> (files w);
                  encodes := encodes w |}) = (Ok video_path, w') ∧
              (video_path = scene_video_path scene_id ∨
               video_path = placeholder_video_path scene_id) ∧
              is_Some (files w' !! video_path) ∧
              encodes w' = encodes w ∧
              (∀ p, is_Some (files w !! p) → is_Some (files w' !! p))) as Hdone.
  { intros content. eexists _, _. split; [reflexivity|]. cbn [files encodes].
    split; [by left|]. split; [rewrite lookup_insert_eq; by eexists|].
    split; [done|]. intros p. apply is_Some_insert_mono. }
  unfold video_attempt. unfold try_except_Exception at 1.
  change (path_join VIDEO_OUTPUT_DIR
            ("scene_" +:+ pretty scene_id +:+ "_placeholder.mp4"))
    with (placeholder_video_path scene_id).
  rewrite generate_video_gradio_run. cbv zeta.
  destruct (gradio_predict V _ prompt (files w)) as [value|e] eqn:Hp.
  - destruct value as [s|].
    + destruct (files w !! s) as [content|].
      * case_bool_decide; [exact Hw | apply Hdone].
      * destruct (http_get V (GStr s)) as [e|e partial|body] eqn:Hg.
        -- rewrite (Hget _ _ Hg). exact Hw.
        -- rewrite (Hstream _ _ _ Hg). apply Hput.
        -- apply Hdone.
    + destruct (http_get V GOther) as [e|e partial|body] eqn:Hg.
      * rewrite (Hget _ _ Hg). exact Hw.
      * rewrite (Hstream _ _ _ Hg). apply Hput.
      * apply Hdone.
  - rewrite (Hpredict _ _ _ _ Hp). exact Hw.
Qed.

Lemma video_loop_ok (V : VideoEnv) (scenes : list video_scene) :
  video_errors_ordinary V →
  ∀ acc w,
    Forall (λ p, is_Some (files w !! p)) acc →
    ∃ paths w',
      video_loop V scenes acc w = (Ok (acc ++ paths), w') ∧
      length paths = length scenes ∧
      (∀ i s, scenes !! i = Some s →
              paths !! i =
                Some (scene_video_path
                        (default (Z.of_nat (length acc + i) + 1)%Z (vsc_scene_id s))) ∨
              paths !! i =
                Some (placeholder_video_path
                        (default (Z.of_nat (length acc + i) + 1)%Z (vsc_scene_id s)))) ∧
      Forall (λ p, is_Some (files w' !! p)) (acc ++ paths) ∧
      encodes w' = encodes w.
Proof.
  intros Hord. induction scenes as [|s rest IH]; intros acc w Hacc.
  - exists [], w. cbn. rewrite app_nil_r. repeat split; done.
  - rewrite video_loop_cons. unfold bind at 1.
    destruct (video_attempt_ok V (build_video_prompt s)
                (default (Z.of_nat (length acc) + 1)%Z (vsc_scene_id s)) w Hord)
      as (vp & w1 & -> & Hvp & Hex & Henc1 & Hmono).
    destruct (IH (acc ++ [vp]) w1) as (paths & w' & -> & Hlen & Hent & Hall & Henc).
    { apply Forall_app. split; [|by repeat constructor].
      eapply Forall_impl; [exact Hacc|]. intros p. apply Hmono. }
    exists (vp :: paths), w'. rewrite <- app_assoc. split; [done|].
    split; [cbn; by rewrite Hlen|]. split; [|split; [by rewrite <- app_assoc in Hall|congruence]].
    intros [|i] s' Hs'; cbn in Hs'.
    + injection Hs' as <-. rewrite Nat.add_0_r. cbn.
      destruct Hvp as [-> | ->]; [by left | by right].
    + specialize (Hent i s' Hs'). rewrite length_app in Hent. cbn [length] in Hent.
      replace (length acc + S i) with (length acc + 1 + i) by lia. exact Hent.
Qed.

(** X17.  When every error of the two generators derives from [Exception],
    [main] of the video script ends normally.  It lists one path per scene,
    in scene order: for the scene of id [n] (its own id, or its position
    counted from 1) either [scene_n.mp4] or [scene_n_placeholder.mp4].  Every
    listed file exists at the end, the list is what the paths file holds, and
    no encoder is run. *)
Theorem videos_main_lists_an_existing_file_per_scene (V : VideoEnv)
    (scenes : list video_scene) (w : World) :
  video_errors_ordinary V →
  ∃ paths w',
    videos_main V (Some scenes) w = (Ok tt, w') ∧
    length paths = length scenes ∧
    (∀ i s, scenes !! i = Some s →
            paths !! i =
              Some (scene_video_path (default (Z.of_nat i + 1)%Z (vsc_scene_id s))) ∨
            paths !! i =
              Some (placeholder_video_path
                      (default (Z.of_nat i + 1)%Z (vsc_scene_id s)))) ∧
    Forall (λ p, file_exists (files w') p = true) paths ∧
    files w' !! "outputs/video_paths.json" = Some (json_dumps V paths) ∧
    encodes w' = encodes w.
Proof.
  intros Hord.
  destruct (video_loop_ok V scenes Hord [] w) as (paths & w1 & Hrun & Hlen & Hent & Hall & Henc);
    [constructor|].
  cbn [app length Nat.add] in *.
  exists paths, {| files := <["outputs/video_paths.json" := json_dumps V paths]> (files w1);
                   encodes := encodes w1 |}.
  split; [|split; [done|split; [exact Hent|split; [|split; [|done]]]]].
  - unfold videos_main. change (default [] (Some scenes)) with scenes.
    unfold bind. by rewrite Hrun.
  - cbn [files]. eapply Forall_impl; [exact Hall|]. intros p Hp.
    apply bool_decide_eq_true_2. by apply is_Some_insert_mono.
  - cbn [files]. by rewrite lookup_insert_eq.
Qed.

Lemma videos_down_ordinary : video_errors_ordinary videos_down.
Proof.
  repeat split.
  - by intros space prompt fs e [= <-].
  - by intros v e [= <-].
  - intros v e partial Hg. discriminate.
  - by intros token prompt e [= <-].
Qed.

Lemma videos_main_lists_an_existing_file_per_scene_witness :
  ∃ paths w',
    videos_main videos_down
      (Some [plain_scene;
             {| vsc_scene_id := Some 9%Z; vsc_emotion := None; vsc_location := None |}])
      empty_world = (Ok tt, w') ∧
    length paths = 2 ∧
    Forall (λ p, file_exists (files w') p = true) paths ∧
    files w' !! "outputs/video_paths.json" = Some (json_dumps videos_down paths).
Proof.
  destruct (videos_main_lists_an_existing_file_per_scene videos_down
              [plain_scene;
               {| vsc_scene_id := Some 9%Z; vsc_emotion := None; vsc_location := None |}]
              empty_world videos_down_ordinary)
    as (paths & w' & Hrun & Hlen & _ & Hall & Hfile & _).
  exists paths, w'. split; [exact Hrun|]. split; [exact Hlen|].
  split; [exact Hall | exact Hfile].
Defined.

Lemma generate_video_api_raise_keeps_world (V : VideoEnv) (prompt : string)
    (scene_id : Z) (w : World) (e : exn) :
  (generate_video_api V prompt scene_id w).1 = Raise e →
  (generate_video_api V prompt scene_id w).2 = w.
Proof.
  rewrite generate_video_api_run.
  destruct (hf_token V) as [[|c token]|]; [done| |done].
  destruct (http_post V (String c token) prompt) as [[status body]|e']; [|done].
  by case_bool_decide.
Qed.

(** X18.  [generate_video_api] writes a file only when the inference
    request answers with status 200: it then returns the scene's video path
    and the file holds the response body, every other file being as before.
    Whenever it raises it has changed nothing; without a token (unset or
    empty) it raises [ValueError]. *)
Theorem generate_video_api_writes_only_on_200 (V : VideoEnv) (prompt : string)
    (scene_id : Z) (w : World) :
  let r := (generate_video_api V prompt scene_id w).1 in
  let w' := (generate_video_api V prompt scene_id w).2 in
  (∀ p, r = Ok p →
        p = scene_video_path scene_id ∧
        ∃ token body,
          hf_token V = Some token ∧ token ≠ "" ∧
          http_post V token prompt = Ok (200%Z, body) ∧
          files w' !! p = Some body ∧
          ∀ q, q ≠ p → files w' !! q = files w !! q) ∧
  (∀ e, r = Raise e → w' = w) ∧
  (hf_token V = None ∨ hf_token V = Some "" → r = Raise ValueError).
Proof.
  cbv zeta. rewrite generate_video_api_run.
  destruct (hf_token V) as [[|c token]|] eqn:Htoken.
  - cbn. split; [done|]. split; [done|]. done.
  - destruct (http_post V (String c token) prompt) as [[status body]|e] eqn:Hpost.
    + case_bool_decide as Hs; cbn [fst snd files].
      * subst status. split; [|split; [done|by intros [?|?]]].
        intros p [= <-]. split; [done|]. exists (String c token), body.
        split; [done|]. split; [done|]. split; [done|].
        split; [by rewrite lookup_insert_eq|].
        intros q Hq. by rewrite lookup_insert_ne.
      * split; [done|]. split; [done|by intros [?|?]].
    + cbn. split; [done|]. split; [done|by intros [?|?]].
  - cbn. split; [done|]. split; [done|]. done.
Qed.

Lemma generate_video_api_writes_only_on_200_witness :
  (generate_video_api videos_down "prompt" 1 demo_world).1 = Raise ValueError ∧
  (generate_video_api videos_down "prompt" 1 demo_world).2 = demo_world.
Proof.
  destruct (generate_video_api_writes_only_on_200 videos_down "prompt" 1 demo_world)
    as (_ & Hsame & Htoken).
  split; [apply Htoken; by left|].
  apply (Hsame ValueError). apply Htoken. by left.
Defined.

(** X19.  When the space answers with a value that is not the path of an
    existing file and the download of that value completes, the scene video
    is the downloaded body, whatever it is: the response is not checked, and
    neither the inference API nor the placeholder is used. *)
Theorem downloaded_body_is_saved_unchecked (V : VideoEnv) (prompt : string)
    (scene_id : Z) (w : World) (v : gradio_value) (body : string) :
  gradio_predict V "Lightricks/LTX-Video" prompt (files w) = Ok v →
  (∀ s, v = GStr s → files w !! s = None) →
  http_get V v = GetDone body →
  video_attempt V prompt scene_id w =
    (Ok (scene_video_path scene_id),
     {| files := <[scene_video_path scene_id := body]> (files w);
        encodes := encodes w |}).
Proof.
  intros Hpredict Hmissing Hget.
  unfold video_attempt. unfold try_except_Exception at 1.
  rewrite generate_video_gradio_run. cbv zeta.
  assert (default (default "" (VIDEO_SPACES !! DEFAULT_SPACE))
                  (VIDEO_SPACES !! DEFAULT_SPACE) = "Lightricks/LTX-Video") as ->
    by (vm_compute; reflexivity).
  rewrite Hpredict. destruct v as [s|].
  - rewrite (Hmissing s eq_refl). by rewrite Hget.
  - by rewrite Hget.
Qed.

Lemma downloaded_body_is_saved_unchecked_witness :
  video_attempt videos_error_page "prompt" 1 empty_world =
    (Ok "outputs/videos/scene_1.mp4",
     {| files := <["outputs/videos/scene_1.mp4" := "<html>404 Not Found</html>"]> ∅;
        encodes := [] |}).
Proof.
  apply (downloaded_body_is_saved_unchecked videos_error_page "prompt" 1 empty_world
           (GStr "https://space.example/file=out.mp4") "<html>404 Not Found</html>").
  - reflexivity.
  - intros s _. apply lookup_empty.
  - reflexivity.
Defined.



(** X21.  When the space cannot be reached and the inference API fails as
    well, both with errors that derive from [Exception], the video listed for
    the scene is the placeholder.  The placeholder then exists: it is an
    empty file, unless a file of that name was there before, which is kept.
    No other file changes. *)
Theorem failed_generation_leaves_a_placeholder (V : VideoEnv) (prompt : string)
    (scene_id : Z) (w : World) (e e2 : exn) :
  gradio_predict V "Lightricks/LTX-Video" prompt (files w) = Raise e →
  is_Exception e = true →
  (generate_video_api V prompt scene_id w).1 = Raise e2 →
  is_Exception e2 = true →
  ∃ w',
    video_attempt V prompt scene_id w =
      (Ok (placeholder_video_path scene_id), w') ∧
    files w' !! placeholder_video_path scene_id =
      Some (default "" (files w !! placeholder_video_path scene_id)) ∧
    (∀ q, q ≠ placeholder_video_path scene_id → files w' !! q = files w !! q) ∧
    encodes w' = encodes w.
Proof.
  intros Hpredict He Hapi He2.
  pose proof (generate_video_api_raise_keeps_world V prompt scene_id w e2 Hapi)
    as Hsame.
  unfold video_attempt. unfold try_except_Exception at 1.
  rewrite generate_video_gradio_run. cbv zeta.
  assert (default (default "" (VIDEO_SPACES !! DEFAULT_SPACE))
                  (VIDEO_SPACES !! DEFAULT_SPACE) = "Lightricks/LTX-Video") as ->
    by (vm_compute; reflexivity).
  rewrite Hpredict, He. unfold try_except_Exception.
  destruct (generate_video_api V prompt scene_id w) as [r w1] eqn:Hrun.
  cbn [fst snd] in Hapi, Hsame. subst r w1. rewrite He2.
  change (path_join VIDEO_OUTPUT_DIR
            ("scene_" +:+ pretty scene_id +:+ "_placeholder.mp4"))
    with (placeholder_video_path scene_id).
  unfold bind, touch, ret. eexists. split; [reflexivity|]. cbn [files encodes].
  destruct (files w !! placeholder_video_path scene_id) as [c|] eqn:Hp.
  - rewrite Hp. by repeat split.
  - split; [by rewrite lookup_insert_eq|]. split; [|done].
    intros q Hq. by rewrite lookup_insert_ne.
Qed.

Lemma failed_generation_leaves_a_placeholder_witness :
  ∃ w',
    video_attempt videos_down "prompt" 4 empty_world =
      (Ok "outputs/videos/scene_4_placeholder.mp4", w') ∧
    files w' !! "outputs/videos/scene_4_placeholder.mp4" = Some "" ∧
    (∀ q, q ≠ "outputs/videos/scene_4_placeholder.mp4" →
          files w' !! q = files empty_world !! q) ∧
    encodes w' = encodes empty_world.
Proof.
  apply (failed_generation_leaves_a_placeholder videos_down "prompt" 4 empty_world
           (OtherError "ConnectionError") ValueError); reflexivity.
Defined.
